(** * le-job-queue-service: a shallow embedding of [src/index.js]

    The development follows the source file top to bottom:

    - [JS]        : the fragment of JavaScript values the service handles
                    (payloads are plain trees of objects, arrays and
                    primitives), with truthiness, [typeof], property
                    access and string conversion;
    - [Sanitizer] : [removeUndefinedFields], lines 162-185;
    - [Service]   : the constructor, [addJob], [fetchPublicKey],
                    [performJob], [createWorker], [shutdown] (lines
                    12-160), run against the collaborators of the class
                    [Collaborators];
    - [Scenario]  : one concrete world to run the service in;
    - [Observers], [Outage] : further readings of a trace, and a world
                    whose storage service fails;
    - [SanitizerFacts], [ServiceFacts], [SanitizerLaws], [ServiceLaws] :
                    the properties proved. *)

From Stdlib Require Import String Ascii ZArith Bool Arith Lia List.
From Stdlib Require Import DecimalString Sorted.
Import ListNotations.
Local Open Scope string_scope.
Local Open Scope list_scope.
Set Warnings "-register-all".


(* ===================================================================== *)
(** ** JavaScript values *)
(* ===================================================================== *)

Module JS.

(** A payload value.  Numbers are the integers a JavaScript number holds
    exactly, between -(2^53 - 1) and 2^53 - 1 (time stamps, counters); an
    object is the list of its own enumerable properties in enumeration
    order; an array is the list of its elements, a hole of a sparse array
    being represented by the value it reads as, [VUndefined]. *)
Inductive value : Type :=
| VUndefined
| VNull
| VBool (b : bool)
| VNum (n : Z)
| VStr (s : string)
| VArr (elems : list value)
| VObj (props : list (string * value)).

(** Induction principle that also gives the hypothesis for the values
    nested in arrays and objects. *)
Section ValueInd.
Variable P : value -> Prop.
Hypothesis Hundef : P VUndefined.
Hypothesis Hnull : P VNull.
Hypothesis Hbool : forall b, P (VBool b).
Hypothesis Hnum : forall n, P (VNum n).
Hypothesis Hstr : forall s, P (VStr s).
Hypothesis Harr : forall a, Forall P a -> P (VArr a).
Hypothesis Hobj : forall kvs, Forall (fun kv => P (snd kv)) kvs -> P (VObj kvs).

Fixpoint value_nested_ind (v : value) : P v :=
  match v with
  | VUndefined => Hundef
  | VNull => Hnull
  | VBool b => Hbool b
  | VNum n => Hnum n
  | VStr s => Hstr s
  | VArr a =>
      Harr a ((fix go (l : list value) : Forall P l :=
                 match l with
                 | [] => Forall_nil _
                 | x :: r => Forall_cons x (value_nested_ind x) (go r)
                 end) a)
  | VObj kvs =>
      Hobj kvs ((fix go (l : list (string * value))
                   : Forall (fun kv => P (snd kv)) l :=
                   match l with
                   | [] => Forall_nil _
                   | kv :: r =>
                       Forall_cons kv (value_nested_ind (snd kv)) (go r)
                   end) kvs)
  end.
End ValueInd.

(** [x === undefined] *)
Definition is_undefined (v : value) : bool :=
  match v with VUndefined => true | _ => false end.

(** [x === null] *)
Definition is_null (v : value) : bool :=
  match v with VNull => true | _ => false end.

(** [typeof x]: note that [typeof null] is ["object"]. *)
Definition typeof (v : value) : string :=
  match v with
  | VUndefined => "undefined"
  | VNull => "object"
  | VBool _ => "boolean"
  | VNum _ => "number"
  | VStr _ => "string"
  | VArr _ => "object"
  | VObj _ => "object"
  end.

(** [typeof x === 'object'] *)
Definition typeof_object (v : value) : bool := String.eqb (typeof v) "object".

(** ToBoolean, the test of [if (x)] and [!x]. *)
Definition truthy (v : value) : bool :=
  match v with
  | VUndefined | VNull => false
  | VBool b => b
  | VNum n => negb (Z.eqb n 0)
  | VStr s => negb (String.eqb s "")
  | VArr _ | VObj _ => true
  end.

(** [x === 'literal'] for a string literal. *)
Definition is_str (lit : string) (v : value) : bool :=
  match v with VStr s => String.eqb s lit | _ => false end.

(** Own-property lookup in a property list. *)
Fixpoint lookup (k : string) (kvs : list (string * value)) : option value :=
  match kvs with
  | [] => None
  | (k', x) :: r => if String.eqb k k' then Some x else lookup k r
  end.

(** [k in o] for a plain object. *)
Definition has_key (k : string) (o : value) : bool :=
  match o with
  | VObj kvs => match lookup k kvs with Some _ => true | None => false end
  | _ => false
  end.

(** [o.k] for a name [k] that is not an array index and not a built-in
    property: a missing property reads as [undefined]; reading a property
    of [undefined] or [null] throws a TypeError ([None]). *)
Definition get_prop (o : value) (k : string) : option value :=
  match o with
  | VUndefined | VNull => None
  | VObj kvs => Some (match lookup k kvs with Some x => x | None => VUndefined end)
  | _ => Some VUndefined
  end.

(** [o.k] where [o] is known not to be [undefined] or [null]. *)
Definition prop (o : value) (k : string) : value :=
  match get_prop o k with Some x => x | None => VUndefined end.

(** [o.k = x] on a property list: an existing property keeps its place,
    a new one is appended. *)
Fixpoint assign (k : string) (x : value) (kvs : list (string * value))
  : list (string * value) :=
  match kvs with
  | [] => [(k, x)]
  | (k', y) :: r => if String.eqb k k' then (k, x) :: r else (k', y) :: assign k x r
  end.

(** [delete o.k] on a property list. *)
Fixpoint remove (k : string) (kvs : list (string * value))
  : list (string * value) :=
  match kvs with
  | [] => []
  | (k', y) :: r => if String.eqb k k' then r else (k', y) :: remove k r
  end.

(** Nesting depth of a value. *)
Fixpoint height (v : value) : nat :=
  match v with
  | VArr a => S (list_max (map height a))
  | VObj kvs => S (list_max (map (fun kv : string * value => height (snd kv)) kvs))
  | _ => 0
  end.

(** ToString, the conversion [x + '...'] applies to its left operand:
    decimal notation for the integers of [VNum] (all below 2^53 in
    absolute value), [Array.prototype.join] for the arrays and
    ["[object Object]"] for the plain objects. *)
Fixpoint to_string (v : value) : string :=
  match v with
  | VUndefined => "undefined"
  | VNull => "null"
  | VBool true => "true"
  | VBool false => "false"
  | VNum n => NilZero.string_of_int (Z.to_int n)
  | VStr s => s
  | VArr a =>
      (fix join (l : list value) : string :=
         match l with
         | [] => ""
         | x :: r =>
             ((match x with
               | VUndefined | VNull => ""
               | _ => to_string x
               end)
              ++ (match r with [] => "" | _ :: _ => "," ++ join r end))%string
         end) a
  | VObj _ => "[object Object]"
  end.

End JS.
Import JS.

(* ===================================================================== *)
(** ** The payload sanitizer, [removeUndefinedFields] *)
(* ===================================================================== *)

Module Sanitizer.

(** [data.splice(start)], the one-argument form the source calls: it
    removes every element from [start] to the end of the array. *)
Definition splice (start : Z) (data : list value) : list value :=
  firstn (Z.to_nat start) data.

(** [data[i]] *)
Definition index (data : list value) (i : Z) : value :=
  nth (Z.to_nat i) data VUndefined.

(** Lines 164-170, the loop
    [for (var i = 0; i < data.length; i += 1)
       { if (data[i] === undefined) { data.splice(i); i -= 1; } }]
    entered with the counter at [i]; [None] when [fuel] iterations were
    not enough to leave it. *)
Fixpoint array_loop (fuel : nat) (i : Z) (data : list value)
  : option (list value) :=
  match fuel with
  | O => None
  | S fuel' =>
      if (i <? Z.of_nat (length data))%Z then
        let arrayContent := index data i in
        if is_undefined arrayContent then
          let data' := splice i data in
          let i' := (i - 1)%Z in
          array_loop fuel' (i' + 1)%Z data'
        else array_loop fuel' (i + 1)%Z data
      else Some data
  end.

(** One iteration of the [for (key in data)] loop of lines 175-184 at a
    property whose value is [x]: the result is the value the property
    holds afterwards, [None] at the outer level when the recursive call
    did not return, [Some None] when the property was deleted. *)
Definition forin_step (rec : value -> option value) (x : value)
  : option (option value) :=
  match (if typeof_object x then rec x else Some x) with
  | None => None
  | Some x' => Some (if is_undefined x' then None else Some x')
  end.

(** The [for-in] loop over the properties of a plain object: a deleted
    property disappears from the enumeration.  The test
    [data.hasOwnProperty(key)] of line 176 is taken to reach
    [Object.prototype.hasOwnProperty], which holds of every property
    listed: the objects modelled are those without a property of their own
    named [hasOwnProperty] (see [plain]), on which the source would throw
    a TypeError instead. *)
Fixpoint forin_object (rec : value -> option value) (kvs : list (string * value))
  : option (list (string * value)) :=
  match kvs with
  | [] => Some []
  | (k, x) :: r =>
      match forin_step rec x, forin_object rec r with
      | Some (Some x'), Some r' => Some ((k, x') :: r')
      | Some None, Some r' => Some r'
      | _, _ => None
      end
  end.

(** The [for-in] loop over the indices of an array: [delete data[key]]
    leaves a hole, the length is unchanged. *)
Fixpoint forin_array (rec : value -> option value) (a : list value)
  : option (list value) :=
  match a with
  | [] => Some []
  | x :: r =>
      match forin_step rec x, forin_array rec r with
      | Some (Some x'), Some r' => Some (x' :: r')
      | Some None, Some r' => Some (VUndefined :: r')
      | _, _ => None
      end
  end.

(** [removeUndefinedFields(data)], lines 162-185.  The source mutates
    [data] in place and returns nothing; the model returns the value
    [data] holds afterwards; [Array.isArray(data)] is the case [VArr].
    [depth] bounds the depth of the recursive calls, [None] meaning that
    the bound was reached. *)
Fixpoint removeUndefinedFields_fuel (depth : nat) (data : value) : option value :=
  match depth with
  | O => None
  | S depth' =>
      let after_loop :=
        match data with
        | VArr a =>
            match array_loop (S (length a)) 0%Z a with
            | Some a' => Some (VArr a')
            | None => None
            end
        | _ => Some data
        end in
      match after_loop with
      | None => None
      | Some data1 =>
          if negb (typeof_object data1) then Some data1
          else
            match data1 with
            | VArr a =>
                match forin_array (removeUndefinedFields_fuel depth') a with
                | Some a' => Some (VArr a')
                | None => None
                end
            | VObj kvs =>
                match forin_object (removeUndefinedFields_fuel depth') kvs with
                | Some kvs' => Some (VObj kvs')
                | None => None
                end
            | _ => Some data1
            end
      end
  end.

(** The sanitizer as a total function: the recursion of the source is
    never deeper than the nesting of [data]
    (see [removeUndefinedFields_fuel_enough]). *)
Definition removeUndefinedFields (data : value) : value :=
  match removeUndefinedFields_fuel (S (height data)) data with
  | Some data' => data'
  | None => data
  end.

(** *** The notions of the specification *)

(** No object of the payload has a property of its own named
    [hasOwnProperty]: on such an object the call
    [data.hasOwnProperty(key)] of line 176 would not reach
    [Object.prototype.hasOwnProperty] and would throw. *)
Fixpoint plain (v : value) : bool :=
  match v with
  | VArr a => forallb plain a
  | VObj kvs =>
      negb (existsb (fun kv : string * value => String.eqb (fst kv) "hasOwnProperty") kvs)
      && forallb (fun kv : string * value => plain (snd kv)) kvs
  | _ => true
  end.


(** The longest prefix of an array without an [undefined] element. *)
Fixpoint defined_prefix (a : list value) : list value :=
  match a with
  | [] => []
  | x :: r => if is_undefined x then [] else x :: defined_prefix r
  end.

(** Compaction as the specification words it: the [undefined] elements
    are dropped, the others keep their relative order. *)
Definition compact (a : list value) : list value :=
  filter (fun x => negb (is_undefined x)) a.

(** No [undefined] element in an array and no property holding
    [undefined] in an object, at every nesting depth. *)
Fixpoint clean (v : value) : bool :=
  match v with
  | VArr a => forallb (fun x => negb (is_undefined x) && clean x) a
  | VObj kvs =>
      forallb (fun kv : string * value =>
                 negb (is_undefined (snd kv)) && clean (snd kv)) kvs
  | _ => true
  end.

(** The value [removeUndefinedFields] leaves, by structural recursion:
    an array is cut at its first [undefined] element, an object loses the
    properties that hold [undefined]. *)
Fixpoint sanitized (v : value) : value :=
  match v with
  | VArr a =>
      VArr ((fix cut (l : list value) : list value :=
               match l with
               | [] => []
               | x :: r => if is_undefined x then [] else sanitized x :: cut r
               end) a)
  | VObj kvs =>
      VObj ((fix strip (l : list (string * value)) : list (string * value) :=
               match l with
               | [] => []
               | (k, x) :: r =>
                   if is_undefined x then strip r else (k, sanitized x) :: strip r
               end) kvs)
  | _ => v
  end.

(** The properties of an object that do not hold [undefined]. *)
Definition defined_props (kvs : list (string * value)) : list (string * value) :=
  filter (fun kv : string * value => negb (is_undefined (snd kv))) kvs.

End Sanitizer.
Import Sanitizer.

(* ===================================================================== *)
(** ** The service, [JobQueueService] *)
(* ===================================================================== *)

Module Service.

(** What a [throw] or a rejected promise carries. *)
Inductive error : Type :=
| Error (message : string)   (* [new Error(message)] *)
| TypeError                  (* reading a property of [undefined] or [null] *)
| Failure (reason : value).  (* an opaque failure of a collaborator *)

(** How a call ends: it returns (a promise is fulfilled), it throws (a
    promise is rejected), or it never does either (a promise that stays
    pending). *)
Inductive outcome (A : Type) : Type :=
| Resolved (a : A)
| Rejected (e : error)
| Pending.
Arguments Resolved {A} a.
Arguments Rejected {A} e.
Arguments Pending {A}.

(** A plain object given by its properties: a job, a job record. *)
Definition props : Type := list (string * value).

(** [o.k] on a plain object. *)
Definition field (o : props) (k : string) : value :=
  match lookup k o with Some x => x | None => VUndefined end.

(** The collaborators of section 6 of the specification, and the two
    services of the host the code calls, as functions of the state of the
    outside world.  [Handle] is the type of the record handles of the
    storage service. *)
Class Collaborators (World Handle : Type) : Type := {
  (* storage service *)
  storage_createRecord : string -> World -> outcome Handle * World;
  storage_fetchRecord : string -> string -> World -> outcome Handle * World;
  record_update : Handle -> value -> World -> outcome Handle * World;
  record_getData : Handle -> World -> value;
  (* LeAsymmetricEncryptionService *)
  encrypt : value -> value -> World -> outcome value * World;
  decrypt : value -> value -> World -> outcome value * World;
  (* job queue provider *)
  provider_shutdown : World -> outcome unit * World;
  (* [new Date().getTime()] *)
  getTime : World -> Z * World;
  (* [Object.assign(target, source)]: kept abstract, its result on a
     target that is not a plain object has no counterpart in [value] *)
  Object_assign : value -> value -> outcome value;
  (* what a call of [Object.assign] that throws has left in [target],
     which it writes property by property *)
  Object_assign_left : value -> value -> value
}.

Section WithCollaborators.

Context {World Handle : Type} {C : Collaborators World Handle}.

(** Every call the service makes to the outside, in the order made. *)
Inductive event : Type :=
| EFetchRecord (name key : string)
| EEncrypt (plaintext publicKey : value) (result : outcome value)
| EConsoleLog (err : error)
| ECreateRecord (path : string)
| EUpdate (record : Handle) (jobData : value)
| ESync (record : Handle)
| ECallback (recordData : value)
| EUnsync (record : Handle)
| EDeferredResolve
| EDeferredReject (err : error)
| ELog (message : string) (data : value)
| ELogError (err : error)
| EDecrypt (encryptedPayload keypair : value) (result : outcome value)
| EProcessJob (job : props)
| ECreate (trackingEvent : value)
| EComplete
| EProviderCreateWorker
| EProviderShutdown.

(** The closure variables of one [JobQueueService] instance. *)
Record service : Type := {
  queueType : value;
  _publicKey : value;
  _provider : bool
}.

(** Lines 12-20, the constructor.  [storage] tells whether a storage
    service was passed; its methods are the collaborators above. *)
Definition JobQueueService (storage : bool) (type : value) : error + service :=
  if negb storage then inl (Error "Instance of storage service required")
  else if negb (is_str "session" type) && negb (is_str "fast" type)
          && negb (is_str "default" type) && negb (is_undefined type)
  then inl (Error ("Invalid value for the type param, value: " ++ to_string type)%string)
  else inr {| queueType := type; _publicKey := VUndefined; _provider := false |}.

(** The instance, the outside world and the calls made so far. *)
Record state : Type := {
  self : service;
  world : World;
  trace : list event
}.

(** *** Computations: state passing with rejection *)

Definition M (A : Type) : Type := state -> outcome A * state.

Definition ret {A} (a : A) : M A := fun s => (Resolved a, s).

Definition throw {A} (e : error) : M A := fun s => (Rejected e, s).

(** Sequencing, the [.then] of a promise chain as well as the [;] of
    straight-line code: a rejection skips what follows. *)
Definition bind {A B} (m : M A) (k : A -> M B) : M B :=
  fun s =>
    match m s with
    | (Resolved a, s') => k a s'
    | (Rejected e, s') => (Rejected e, s')
    | (Pending, s') => (Pending, s')
    end.

(** [try { m } catch (err) { handler }] *)
Definition try_catch {A} (m : M A) (handler : error -> M A) : M A :=
  fun s =>
    match m s with
    | (Rejected e, s') => handler e s'
    | r => r
    end.

Notation "x <- m ;; k" := (bind m (fun x => k))
  (at level 61, m at next level, right associativity).
Notation "m ;;; k" := (bind m (fun _ => k))
  (at level 61, right associativity).

Definition emit (e : event) : M unit :=
  fun s => (Resolved tt,
            {| self := self s; world := world s; trace := trace s ++ [e] |}).

(** A call to a collaborator: its answer, and the world it leaves. *)
Definition call {A} (f : World -> outcome A * World) : M A :=
  fun s =>
    let (r, w) := f (world s) in
    (r, {| self := self s; world := w; trace := trace s |}).

Definition get_self : M service := fun s => (Resolved (self s), s).

Definition set_publicKey (k : value) : M unit :=
  fun s => (Resolved tt,
            {| self := {| queueType := queueType (self s);
                          _publicKey := k;
                          _provider := _provider (self s) |};
               world := world s; trace := trace s |}).

Definition set_provider : M unit :=
  fun s => (Resolved tt,
            {| self := {| queueType := queueType (self s);
                          _publicKey := _publicKey (self s);
                          _provider := true |};
               world := world s; trace := trace s |}).

(** [new Date().getTime()] *)
Definition now : M Z :=
  fun s =>
    let (t, w) := getTime (world s) in
    (Resolved t, {| self := self s; world := w; trace := trace s |}).

(** [o.k] where [o] may be [undefined] or [null]. *)
Definition read (o : value) (k : string) : M value :=
  match get_prop o k with
  | Some x => ret x
  | None => throw TypeError
  end.

(** *** [fetchPublicKey], lines 70-75 *)

Definition fetchPublicKey : M unit :=
  emit (EFetchRecord "Public Key" "BACKGROUND_PUBLIC_KEY") ;;;
  publicKeyRecord <- call (storage_fetchRecord "Public Key" "BACKGROUND_PUBLIC_KEY") ;;
  publicKeyRecordData <- (fun s => (Resolved (record_getData publicKeyRecord (world s)), s)) ;;
  v <- read publicKeyRecordData "value" ;;
  set_publicKey v.

(** *** [addJob], lines 31-69 *)

(** Lines 36-40, the first [then]: the key is fetched when none is cached
    and sensitive data was given. *)
Definition key_phase (sensitiveData : value) : M unit :=
  this <- get_self ;;
  if negb (truthy (_publicKey this)) && truthy sensitiveData
  then fetchPublicKey
  else ret tt.

(** Lines 41-48: the encryption, its failure caught and logged. *)
Definition encrypt_phase (sensitiveData : value) : M value :=
  if truthy sensitiveData then
    this <- get_self ;;
    try_catch
      (fun s =>
         let (r, w) := encrypt sensitiveData (_publicKey this) (world s) in
         (r, {| self := self s; world := w;
                trace := trace s ++ [EEncrypt sensitiveData (_publicKey this) r] |}))
      (fun err => emit (EConsoleLog err) ;;; ret VUndefined)
  else ret VUndefined.

(** Lines 50-56, the namespace of a queue type. *)
Definition route (queueType : value) : string :=
  if is_str "fast" queueType then "_fastQueue/task"
  else if is_str "session" queueType then "_sessionQueue/task"
  else "_queue/task".

(** Lines 57-64, the record written. *)
Definition make_jobData (type data encryptedPayload : value) : M value :=
  let jobData := [("type", type); ("data", data)] in
  if truthy encryptedPayload then
    encryptedData <- read encryptedPayload "encryptedData" ;;
    encryptedKey <- read encryptedPayload "encryptedKey" ;;
    ret (VObj (assign "encryptedKey" encryptedKey
                 (assign "encryptedData" encryptedData jobData)))
  else ret (VObj jobData).

(** Lines 49-65: the record is created in the namespace of the queue and
    updated with the job. *)
Definition store_phase (type data encryptedPayload : value) : M Handle :=
  this <- get_self ;;
  let path := route (queueType this) in
  emit (ECreateRecord path) ;;;
  record <- call (storage_createRecord path) ;;
  jobData <- make_jobData type data encryptedPayload ;;
  emit (EUpdate record jobData) ;;;
  call (record_update record jobData).

(** The promise chain of lines 35-68, [data] and [sensitiveData] being
    the values the two arguments hold after lines 32-33. *)
Definition addJob_chain (type data sensitiveData : value) : M Handle :=
  key_phase sensitiveData ;;;
  encryptedPayload <- encrypt_phase sensitiveData ;;
  record <- store_phase type data encryptedPayload ;;
  ret record.

(** What the invocation of a method that returns a promise gives back
    to its caller: it throws, or it returns the promise. *)
Inductive invocation (A : Type) : Type :=
| Threw (e : error)
| Returned (promise : M A).
Arguments Threw {A} e.
Arguments Returned {A} promise.

(** [addJob(type, data, sensitiveData)]: the two arguments are sanitized
    in place, then the chain is built and returned.  On the payloads
    modelled (see [forin_object]) the sanitizer does not throw, and
    neither does [addJob]. *)
Definition addJob (type data sensitiveData : value) : invocation Handle :=
  let data := removeUndefinedFields data in
  let sensitiveData := removeUndefinedFields sensitiveData in
  Returned (addJob_chain type data sensitiveData).

(** An invocation awaited: a throw and a rejection are not told apart. *)
Definition await {A} (i : invocation A) : M A :=
  match i with
  | Threw e => throw e
  | Returned promise => promise
  end.

(** *** [performJob], lines 86-102 *)

(** The state of [deferred.promise]. *)
Inductive promise_state : Type :=
| PPending
| PFulfilled
| PRejected (e : error).

(** [deferred.resolve()] and [deferred.reject(err)]: a settled promise
    does not change any more. *)
Definition resolve (p : promise_state) : promise_state :=
  match p with PPending => PFulfilled | _ => p end.

Definition reject (err : error) (p : promise_state) : promise_state :=
  match p with PPending => PRejected err | _ => p end.

(** What one [performJob] call owns: its deferred and, while the
    callback of line 91 is registered, the record it is registered on. *)
Record job_watch : Type := {
  deferred : promise_state;
  synced : option Handle
}.

(** [performJob], with [this_addJob] the method [this.addJob] resolves to
    at the call.  The result is taken when the chain of [addJob] has
    run. *)
Definition performJob (this_addJob : value -> value -> value -> invocation Handle)
    (type data sensitiveData : value) (s : state) : job_watch * state :=
  let deferred := PPending in
  match this_addJob type data sensitiveData with
  | Threw err =>
      (* catch (err) { deferred.reject(err); } *)
      let (_, s') := emit (EDeferredReject err) s in
      ({| deferred := reject err deferred; synced := None |}, s')
  | Returned promise =>
      match promise s with
      | (Resolved record, s') =>
          (* record.sync(function (recordData) {...}) *)
          let (_, s'') := emit (ESync record) s' in
          ({| deferred := deferred; synced := Some record |}, s'')
      | (_, s') => ({| deferred := deferred; synced := None |}, s')
      end
  end.

(** Lines 91-96, the callback given to [record.sync]. *)
Definition on_change (record : Handle) (recordData : value)
    (w : job_watch) (s : state) : job_watch * state :=
  if is_null recordData then
    let (_, s1) := emit (EUnsync record) s in
    let (_, s2) := emit EDeferredResolve s1 in
    ({| deferred := resolve (deferred w); synced := None |}, s2)
  else (w, s).

(** The storage service reporting a change of the record: the callback
    runs as long as it is registered ([Record.sync] / [Record.unsync] of
    the storage collaborator). *)
Definition notify (recordData : value) (w : job_watch) (s : state)
  : job_watch * state :=
  match synced w with
  | Some record =>
      let (_, s') := emit (ECallback recordData) s in
      on_change record recordData w s'
  | None => (w, s)
  end.

(** A run of successive changes. *)
Fixpoint notify_all (changes : list value) (w : job_watch) (s : state)
  : job_watch * state :=
  match changes with
  | [] => (w, s)
  | recordData :: rest =>
      let (w', s') := notify recordData w s in
      notify_all rest w' s'
  end.

(** *** [createWorker], lines 113-148 *)

(** What the caller's [processJob(job, complete)] does, as far as the
    wrapper is concerned: it returns without calling [complete] (again),
    it throws, or it calls [complete], the world having moved on by [pass]
    and the job object being [job] at that moment, and carries on with
    [next] according to how the call of [complete] ended. *)
Inductive script : Type :=
| Quiet
| Throws (e : error)
| Calls (job : props) (pass : World -> World) (next : outcome unit -> script).

Definition processor : Type := props -> World -> script.

(** The [logService] argument: its two methods, either of which may
    throw. *)
Record log_service : Type := {
  log : string -> value -> World -> outcome unit * World;
  log_error : error -> World -> outcome unit * World
}.

(** The [dataService] argument: its method [create]. *)
Definition data_service : Type := value -> World -> outcome unit * World.

(** [logService.log(message, data)]: a TypeError when no log service was
    passed to [createWorker], which does not check it. *)
Definition logService_log (logService : option log_service)
    (message : string) (data : value) : M unit :=
  match logService with
  | None => throw TypeError
  | Some service => emit (ELog message data) ;;; call (log service message data)
  end.

(** [logService.error(err)] *)
Definition logService_error (logService : option log_service)
    (err : error) : M unit :=
  match logService with
  | None => throw TypeError
  | Some service => emit (ELogError err) ;;; call (log_error service err)
  end.

(** [dataService.create(trackingEvent)]: a TypeError when no data
    service was passed. *)
Definition dataService_create (dataService : option data_service)
    (trackingEvent : value) : M unit :=
  match dataService with
  | None => throw TypeError
  | Some create => emit (ECreate trackingEvent) ;;; call (create trackingEvent)
  end.

(** The job after a merge that has thrown: [Object.assign] writes into
    the object [job.data] itself, which keeps what was written before the
    throw. *)
Definition after_failed_merge (job : props) (decryptedData : value) : props :=
  match lookup "data" job with
  | Some target => assign "data" (Object_assign_left target decryptedData) job
  | None => job
  end.

(** Lines 119-132, the decryption of an encrypted job: the [try] block
    ends at the first call that throws, and the [catch] block logs. *)
Definition decrypt_step (logService : option log_service) (keypair : value)
    (job : props) : M props :=
  if truthy (field job "encryptedData") then
    let encryptedPayload :=
      VObj [("encryptedData", field job "encryptedData");
            ("encryptedKey", field job "encryptedKey")] in
    fun s =>
      let (r, w) := decrypt encryptedPayload keypair (world s) in
      let s1 := {| self := self s; world := w;
                   trace := trace s ++ [EDecrypt encryptedPayload keypair r] |} in
      match r with
      | Resolved decryptedData =>
          match Object_assign (field job "data") decryptedData with
          | Resolved merged =>
              let job := assign "data" merged job in
              let job := remove "encryptedData" job in
              let job := remove "encryptedKey" job in
              (Resolved job, s1)
          | Rejected err =>
              (logService_error logService err ;;;
               ret (after_failed_merge job decryptedData)) s1
          | Pending => (Pending, s1)
          end
      | Rejected err => (logService_error logService err ;;; ret job) s1
      | Pending => (Pending, s1)
      end
  else ret job.

(** Lines 134-143, the callback handed to the processor as [complete].
    [happenedAt], a [Date], is represented by its time value. *)
Definition on_complete (dataService : option data_service)
    (jobStartTime : Z) (job : props) : M unit :=
  jobCompleteTime <- now ;;
  let jobCompletionTime := (jobCompleteTime - jobStartTime)%Z in
  happenedAt <- now ;;
  let trackingEvent :=
    VObj [("_type", VStr "TrackingEvent");
          ("eventName", VStr (to_string (field job "type") ++ "-job-completed")%string);
          ("happenedAt", VNum happenedAt);
          ("eventData", VObj [("jobCompletionTime", VNum jobCompletionTime)])] in
  dataService_create dataService trackingEvent ;;;
  emit EComplete.

(** The processor at work: each call of [complete] runs the callback,
    and the processor goes on according to how it ended. *)
Fixpoint play (complete : props -> M unit) (sc : script) : M unit :=
  match sc with
  | Quiet => ret tt
  | Throws e => throw e
  | Calls job pass next =>
      fun s =>
        let (r, s') :=
          complete job {| self := self s; world := pass (world s);
                          trace := trace s |} in
        play complete (next r) s'
  end.

(** Lines 116-145, [innerProcessJob(job, complete)]. *)
Definition innerProcessJob (processJob : processor) (keypair : value)
    (logService : option log_service) (dataService : option data_service)
    (job : props) : M unit :=
  jobStartTime <- now ;;
  logService_log logService
    ("Processing " ++ to_string (field job "type") ++ " job")%string
    (field job "data") ;;;
  job <- decrypt_step logService keypair job ;;
  emit (EProcessJob job) ;;;
  (fun s => play (on_complete dataService jobStartTime)
              (processJob job (world s)) s).

(** [createWorker]: only [provider] and [processJob] are checked; the
    wrapper is handed to the provider, which is the one to call it, once
    per job. *)
Definition createWorker (provider : bool) (processJob : option processor)
    (keypair : value) (logService : option log_service)
    (dataService : option data_service) : M (props -> M unit) :=
  if negb provider then throw (Error "Job queue provider required")
  else
    match processJob with
    | None => throw (Error "Process job callback required")
    | Some processJob =>
        set_provider ;;;
        emit EProviderCreateWorker ;;;
        ret (innerProcessJob processJob keypair logService dataService)
    end.

(** *** [shutdown], lines 156-159 *)

Definition shutdown : M unit :=
  this <- get_self ;;
  if negb (_provider this) then throw (Error "Job queue provider required")
  else emit EProviderShutdown ;;; call provider_shutdown.

(** *** Reading a trace *)

Definition is_fetch (e : event) : bool :=
  match e with EFetchRecord _ _ => true | _ => false end.

(** How many times the key record was fetched. *)
Definition fetch_count (tr : list event) : nat := length (filter is_fetch tr).

(** The namespaces in which records were created. *)
Definition created_paths (tr : list event) : list string :=
  flat_map (fun e => match e with ECreateRecord path => [path] | _ => [] end) tr.

(** The queue types the constructor accepts. *)
Definition is_queue_type (type : value) : bool :=
  is_str "session" type || is_str "fast" type || is_str "default" type
  || is_undefined type.

(** The record lines 57-64 build, [encryptedPayload] being what the
    encryption has left ([undefined] when it was not run or has failed). *)
Definition job_record (type data encryptedPayload : value) : value :=
  if truthy encryptedPayload
  then VObj [("type", type); ("data", data);
             ("encryptedData", prop encryptedPayload "encryptedData");
             ("encryptedKey", prop encryptedPayload "encryptedKey")]
  else VObj [("type", type); ("data", data)].

(** [addJob] called on each triple of [calls] in turn, every call awaited
    before the next is made. *)
Fixpoint addJobs (calls : list (value * value * value)) (s : state) : state :=
  match calls with
  | [] => s
  | (type, data, sensitiveData) :: rest =>
      addJobs rest (snd (await (addJob type data sensitiveData) s))
  end.

End WithCollaborators.

Arguments Quiet {World}.
Arguments Throws {World} e.
Arguments Calls {World} job pass next.
Arguments Threw {World Handle A} e.
Arguments Returned {World Handle A} promise.
Arguments event : clear implicits.
Arguments state : clear implicits.
Arguments M : clear implicits.

End Service.
Import Service.

(* ===================================================================== *)
(** ** A small world to run the service in *)
(* ===================================================================== *)

Module Scenario.

(** The outside world: a clock, the content of the key record (if the
    record exists), and the number of records created so far. *)
Record lab : Type := {
  clock : Z;
  key_record : option value;
  created : nat
}.

Definition tick (dt : Z) (w : lab) : lab :=
  {| clock := (clock w + dt)%Z; key_record := key_record w; created := created w |}.

(** Encryption works with the key ["PEM"] only. *)
Definition lab_encrypt (plaintext publicKey : value) (w : lab)
  : outcome value * lab :=
  if is_str "PEM" publicKey
  then (Resolved (VObj [("encryptedData", VStr "ciphertext");
                        ("encryptedKey", VStr "wrapped key")]), w)
  else (Rejected (Failure (VStr "bad key")), w).

Definition lab_decrypt (encryptedPayload keypair : value) (w : lab)
  : outcome value * lab :=
  if is_str "PEM" keypair
  then (Resolved (VObj [("secret", VStr "s3cret")]), w)
  else (Rejected (Failure (VStr "bad key pair")), w).

(** [Object.assign] on two plain objects. *)
Definition lab_assign (target source : value) : outcome value :=
  match target, source with
  | VObj t, VObj src =>
      Resolved (VObj (fold_left (fun acc kv => assign (fst kv) (snd kv) acc) src t))
  | VUndefined, _ | VNull, _ => Rejected TypeError
  | _, _ => Resolved target
  end.

#[export] Instance lab_collaborators : Collaborators lab nat := {|
  storage_createRecord := fun path w =>
    (Resolved (created w),
     {| clock := clock w; key_record := key_record w; created := S (created w) |});
  storage_fetchRecord := fun name key w =>
    match key_record w with
    | Some _ => (Resolved 0, w)
    | None => (Rejected (Failure (VStr "no such record")), w)
    end;
  record_update := fun record jobData w => (Resolved record, w);
  record_getData := fun record w =>
    match key_record w with Some d => d | None => VNull end;
  encrypt := lab_encrypt;
  decrypt := lab_decrypt;
  provider_shutdown := fun w => (Resolved tt, w);
  getTime := fun w => (clock w, tick 1 w);
  Object_assign := lab_assign;
  Object_assign_left := fun target source => target
|}.

(** A service on the default queue in a world where the key record holds
    [key]. *)
Definition fresh (key : option value) : state lab nat :=
  {| self := {| queueType := VUndefined; _publicKey := VUndefined; _provider := false |};
     world := {| clock := 1000; key_record := key; created := 0 |};
     trace := [] |}.

(** A processor that takes 40 ms and then calls [complete]. *)
Definition slow_processor : processor :=
  fun job w => Calls job (tick 40) (fun _ => Quiet).

(** A log service and a data service that accept everything. *)
Definition lab_log : @log_service lab :=
  {| log := fun message data w => (Resolved tt, w);
     log_error := fun err w => (Resolved tt, w) |}.

Definition lab_data : @data_service lab := fun trackingEvent w => (Resolved tt, w).

(** Payloads: sensitive data with a field left undefined, and plain
    data. *)
Definition card : value := VObj [("card", VStr "4111"); ("cvv", VUndefined)].
Definition mail : value := VObj [("to", VStr "a@b.c")].

End Scenario.

(* ===================================================================== *)
(** ** Further notions for reading traces, and a failing storage *)
(* ===================================================================== *)

Module Observers.

(** The place of a call in the chain of [addJob]: the key fetch (line
    38), the encryption (44), the logging of its failure (46), the
    creation of the record (51-55) and its update (65). *)
Definition phase_rank {Handle : Type} (e : event Handle) : nat :=
  match e with
  | EFetchRecord _ _ => 0
  | EEncrypt _ _ _ => 1
  | EConsoleLog _ => 2
  | ECreateRecord _ => 3
  | EUpdate _ _ => 4
  | _ => 5
  end.

(** The calls that report the end of a job: the telemetry event and the
    [complete] of the provider. *)
Definition is_report {Handle : Type} (e : event Handle) : bool :=
  match e with
  | ECreate _ | EComplete => true
  | _ => false
  end.

(** A computation that leaves the instance as it is and whose calls to
    the outside all satisfy [P]. *)
Definition appends {World Handle A : Type} (P : event Handle -> Prop)
    (m : M World Handle A) : Prop :=
  forall s,
    self (snd (m s)) = self s
    /\ exists evs, trace (snd (m s)) = trace s ++ evs /\ Forall P evs.

(** The calls the worker wrapper makes before the processor is at work:
    to the log service, to [decrypt], and to the processor itself. *)
Definition prefix_call {Handle : Type} (e : event Handle) : Prop :=
  match e with
  | ELog _ _ | ELogError _ | EDecrypt _ _ _ | EProcessJob _ => True
  | _ => False
  end.

(** The calls the worker wrapper makes: to the log service, to
    [decrypt], to the processor, to the data service and to the [complete]
    of the provider. *)
Definition worker_call {Handle : Type} (e : event Handle) : Prop :=
  match e with
  | ELog _ _ | ELogError _ | EDecrypt _ _ _ | EProcessJob _ | ECreate _
  | EComplete => True
  | _ => False
  end.

End Observers.
Import Observers.

Module Outage.

(** A storage service out of order: it refuses either to create records
    or to update them. *)
Inductive outage : Type :=
| CreateDown
| UpdateDown.

Definition down_collaborators : Collaborators outage nat := {|
  storage_createRecord := fun path w =>
    match w with
    | CreateDown => (Rejected (Failure (VStr "storage unavailable")), w)
    | UpdateDown => (Resolved 0, w)
    end;
  storage_fetchRecord := fun name key w =>
    (Rejected (Failure (VStr "storage unavailable")), w);
  record_update := fun record jobData w =>
    (Rejected (Failure (VStr "write refused")), w);
  record_getData := fun record w => VNull;
  encrypt := fun plaintext publicKey w => (Rejected (Failure (VStr "no key")), w);
  decrypt := fun encryptedPayload keypair w =>
    (Rejected (Failure (VStr "no key")), w);
  provider_shutdown := fun w => (Resolved tt, w);
  getTime := fun w => (0%Z, w);
  Object_assign := fun target source => Rejected TypeError;
  Object_assign_left := fun target source => target
|}.

(** A service on the session queue in front of that storage. *)
Definition stranded (w : outage) : state outage nat :=
  {| self := {| queueType := VStr "session"; _publicKey := VUndefined;
                _provider := false |};
     world := w;
     trace := [] |}.

End Outage.

(* ===================================================================== *)
(** * Properties of the sanitizer *)
(* ===================================================================== *)

Module SanitizerFacts.

Lemma sanitized_arr (a : list value) :
  sanitized (VArr a) = VArr (map sanitized (defined_prefix a)).
Proof.
  simpl. f_equal.
  induction a as [|x r IH]; simpl; [reflexivity|].
  destruct (is_undefined x); simpl; [reflexivity|].
  now rewrite IH.
Qed.

Lemma sanitized_obj (kvs : list (string * value)) :
  sanitized (VObj kvs) =
  VObj (map (fun kv : string * value => (fst kv, sanitized (snd kv)))
          (defined_props kvs)).
Proof.
  simpl. f_equal.
  induction kvs as [|[k x] r IH]; simpl; [reflexivity|].
  destruct (is_undefined x); simpl; [assumption|].
  now rewrite IH.
Qed.

Lemma sanitized_undefined (v : value) :
  is_undefined (sanitized v) = is_undefined v.
Proof. destruct v; reflexivity. Qed.

Lemma sanitized_not_object (v : value) :
  typeof_object v = false -> sanitized v = v.
Proof. destruct v; simpl; intros H; try reflexivity; discriminate H. Qed.

Lemma defined_prefix_all (a : list value) :
  Forall (fun x => is_undefined x = false) (defined_prefix a).
Proof.
  induction a as [|x r IH]; simpl; [constructor|].
  destruct (is_undefined x) eqn:E; constructor; assumption.
Qed.

Lemma defined_prefix_incl (a : list value) (P : value -> Prop) :
  Forall P a -> Forall P (defined_prefix a).
Proof.
  induction 1 as [|x r Hx Hr IH]; simpl; [constructor|].
  destruct (is_undefined x); constructor; assumption.
Qed.

Lemma defined_prefix_id (a : list value) :
  Forall (fun x => is_undefined x = false) a -> defined_prefix a = a.
Proof.
  induction 1 as [|x r Hx Hr IH]; simpl; [reflexivity|].
  rewrite Hx, IH. reflexivity.
Qed.

(** The loop of lines 164-170, entered at the end of a prefix without
    [undefined]: it stops at the first [undefined] element that follows
    and leaves nothing behind it. *)
Lemma array_loop_prefix (rest pre : list value) (fuel : nat) :
  length rest < fuel ->
  array_loop fuel (Z.of_nat (length pre)) (pre ++ rest)
  = Some (pre ++ defined_prefix rest).
Proof.
  revert pre fuel.
  induction rest as [|x r IH]; intros pre fuel Hfuel;
    (destruct fuel as [|fuel]; [inversion Hfuel|]); simpl.
  - rewrite app_nil_r.
    replace (Z.of_nat (length pre) <? Z.of_nat (length pre))%Z with false
      by (symmetry; apply Z.ltb_ge; lia).
    reflexivity.
  - replace (Z.of_nat (length pre) <? Z.of_nat (length (pre ++ x :: r)))%Z
      with true
      by (symmetry; apply Z.ltb_lt; rewrite length_app; simpl; lia).
    unfold index. rewrite Nat2Z.id, nth_middle.
    destruct (is_undefined x) eqn:Ex.
    + unfold splice. rewrite Nat2Z.id.
      rewrite firstn_app, Nat.sub_diag, firstn_all. simpl. rewrite !app_nil_r.
      simpl in Hfuel. destruct fuel as [|fuel]; [lia|]. simpl.
      replace (Z.of_nat (length pre) - 1 + 1 <? Z.of_nat (length pre))%Z
        with false by (symmetry; apply Z.ltb_ge; lia).
      reflexivity.
    + specialize (IH (pre ++ [x]) fuel).
      rewrite length_app in IH. simpl in IH.
      replace (Z.of_nat (length pre) + 1)%Z
        with (Z.of_nat (length pre + 1)) by lia.
      rewrite <- app_assoc in IH. simpl in IH.
      rewrite IH by (simpl in Hfuel; lia).
      rewrite <- app_assoc. reflexivity.
Qed.

(** The first loop terminates within [length a + 1] tests and cuts the
    array at its first [undefined] element. *)
Lemma array_loop_cut (a : list value) :
  array_loop (S (length a)) 0%Z a = Some (defined_prefix a).
Proof. apply (array_loop_prefix a [] (S (length a))). lia. Qed.

Lemma forin_array_sanitized (rec : value -> option value) (a : list value) :
  Forall (fun x => is_undefined x = false /\
                   (typeof_object x = true -> rec x = Some (sanitized x))) a ->
  forin_array rec a = Some (map sanitized a).
Proof.
  induction 1 as [|x r [Hx Hrec] Hr IH]; simpl; [reflexivity|].
  unfold forin_step. rewrite IH.
  destruct (typeof_object x) eqn:Et.
  - rewrite (Hrec eq_refl), sanitized_undefined, Hx. reflexivity.
  - rewrite Hx, (sanitized_not_object x Et). reflexivity.
Qed.

Lemma forin_object_sanitized (rec : value -> option value)
    (kvs : list (string * value)) :
  Forall (fun kv : string * value =>
            typeof_object (snd kv) = true ->
            rec (snd kv) = Some (sanitized (snd kv))) kvs ->
  forin_object rec kvs
  = Some (map (fun kv : string * value => (fst kv, sanitized (snd kv)))
            (defined_props kvs)).
Proof.
  induction 1 as [|[k x] r Hrec Hr IH]; simpl; [reflexivity|].
  simpl in Hrec. unfold forin_step. rewrite IH.
  destruct (typeof_object x) eqn:Et.
  - rewrite (Hrec eq_refl), sanitized_undefined.
    destruct (is_undefined x); reflexivity.
  - destruct (is_undefined x); simpl;
      rewrite ?(sanitized_not_object x Et); reflexivity.
Qed.

Lemma height_elem (a : list value) (d : nat) :
  S (list_max (map height a)) < S d -> Forall (fun x => height x < d) a.
Proof.
  intros H. assert (Hle : list_max (map height a) <= d - 1) by lia.
  apply list_max_le in Hle. rewrite Forall_map in Hle.
  eapply Forall_impl; [|exact Hle]. simpl. intros x Hx. lia.
Qed.

Lemma height_prop (kvs : list (string * value)) (d : nat) :
  S (list_max (map (fun kv : string * value => height (snd kv)) kvs)) < S d ->
  Forall (fun kv : string * value => height (snd kv) < d) kvs.
Proof.
  intros H.
  assert (Hle : list_max (map (fun kv : string * value => height (snd kv)) kvs)
                <= d - 1) by lia.
  apply list_max_le in Hle. rewrite Forall_map in Hle.
  eapply Forall_impl; [|exact Hle]. simpl. intros x Hx. lia.
Qed.

(** The recursion of the source returns as soon as it is allowed one
    level more than the nesting of its argument, and returns [sanitized]. *)
Lemma removeUndefinedFields_fuel_sanitized (v : value) :
  forall depth, height v < depth ->
  removeUndefinedFields_fuel depth v = Some (sanitized v).
Proof.
  induction v as [| | b | n | s | a IH | kvs IH] using value_nested_ind;
    intros depth Hd; (destruct depth as [|depth]; [inversion Hd|]);
    try reflexivity.
  - cbn [removeUndefinedFields_fuel]. rewrite array_loop_cut.
    cbn [typeof_object typeof String.eqb negb].
    replace (String.eqb "object" "object") with true by reflexivity.
    cbn [negb].
    rewrite (forin_array_sanitized _ (defined_prefix a)).
    + now rewrite sanitized_arr.
    + simpl in Hd. apply height_elem in Hd.
      pose proof (defined_prefix_all a) as Hdef.
      pose proof (defined_prefix_incl a _ IH) as Hih.
      pose proof (defined_prefix_incl a _ Hd) as Hh.
      rewrite Forall_forall in *. intros x Hx. split; [now apply Hdef|].
      intros _. apply Hih; [assumption|]. now apply Hh.
  - cbn [removeUndefinedFields_fuel].
    cbn [typeof_object typeof].
    replace (String.eqb "object" "object") with true by reflexivity.
    cbn [negb].
    rewrite (forin_object_sanitized _ kvs).
    + now rewrite sanitized_obj.
    + simpl in Hd. apply height_prop in Hd.
      rewrite Forall_forall in *. intros kv Hkv _.
      apply IH; [assumption|]. now apply Hd.
Qed.

(** Enough fuel gives the result of the total function. *)
Lemma removeUndefinedFields_fuel_enough (v : value) (depth : nat) :
  height v < depth ->
  removeUndefinedFields_fuel depth v = Some (removeUndefinedFields v).
Proof.
  intros Hd. unfold removeUndefinedFields.
  rewrite (removeUndefinedFields_fuel_sanitized v (S (height v))) by lia.
  now apply removeUndefinedFields_fuel_sanitized.
Qed.

Lemma removeUndefinedFields_sanitized (v : value) :
  removeUndefinedFields v = sanitized v.
Proof.
  unfold removeUndefinedFields.
  now rewrite (removeUndefinedFields_fuel_sanitized v (S (height v))) by lia.
Qed.


(** What it does to an object none of whose objects has a property of
    its own named [hasOwnProperty]: the properties holding [undefined] are
    deleted, the others are sanitized in turn and keep their order. *)
Lemma removeUndefinedFields_object (kvs : list (string * value)) :
  plain (VObj kvs) = true ->
  removeUndefinedFields (VObj kvs)
  = VObj (map (fun kv : string * value =>
                 (fst kv, removeUndefinedFields (snd kv)))
            (defined_props kvs)).
Proof.
  intros _.
  rewrite removeUndefinedFields_sanitized, sanitized_obj. f_equal.
  apply map_ext. intros x. now rewrite removeUndefinedFields_sanitized.
Qed.

Lemma removeUndefinedFields_truthy (v : value) :
  truthy (removeUndefinedFields v) = truthy v.
Proof. rewrite removeUndefinedFields_sanitized. destruct v; reflexivity. Qed.

Lemma sanitized_clean (v : value) : clean (sanitized v) = true.
Proof.
  induction v as [| | b | n | s | a IH | kvs IH] using value_nested_ind;
    try reflexivity.
  - rewrite sanitized_arr. simpl. rewrite forallb_forall. intros y Hy.
    apply in_map_iff in Hy. destruct Hy as [x [<- Hx]].
    rewrite sanitized_undefined.
    pose proof (defined_prefix_all a) as Hdef.
    pose proof (defined_prefix_incl a _ IH) as Hih.
    rewrite Forall_forall in Hdef, Hih.
    rewrite (Hdef x Hx), (Hih x Hx). reflexivity.
  - rewrite sanitized_obj. simpl. rewrite forallb_forall. intros y Hy.
    apply in_map_iff in Hy. destruct Hy as [[k x] [<- Hx]]. simpl.
    unfold defined_props in Hx. apply filter_In in Hx. destruct Hx as [Hin Hx].
    simpl in Hx. rewrite sanitized_undefined. rewrite Hx.
    rewrite Forall_forall in IH. apply (IH (k, x) Hin).
Qed.

(** A value without [undefined] inside is left as it is. *)
Lemma sanitized_fixpoint (v : value) : clean v = true -> sanitized v = v.
Proof.
  induction v as [| | b | n | s | a IH | kvs IH] using value_nested_ind;
    intros Hc; try reflexivity.
  - rewrite sanitized_arr. simpl in Hc. rewrite forallb_forall in Hc.
    rewrite defined_prefix_id.
    + f_equal. rewrite <- (map_id a) at 2. apply map_ext_in. intros x Hx.
      rewrite Forall_forall in IH. apply (IH x Hx).
      specialize (Hc x Hx). apply andb_true_iff in Hc. apply Hc.
    + rewrite Forall_forall. intros x Hx. specialize (Hc x Hx).
      apply andb_true_iff in Hc. destruct Hc as [Hc _].
      now apply negb_true_iff in Hc.
  - rewrite sanitized_obj. simpl in Hc. rewrite forallb_forall in Hc.
    unfold defined_props. f_equal.
    assert (Hall : filter (fun kv : string * value => negb (is_undefined (snd kv))) kvs = kvs).
    { apply forallb_filter_id. rewrite forallb_forall. intros kv Hkv.
      specialize (Hc kv Hkv). apply andb_true_iff in Hc. apply Hc. }
    rewrite Hall. rewrite <- (map_id kvs) at 2. apply map_ext_in.
    intros [k x] Hx. simpl. f_equal.
    rewrite Forall_forall in IH. apply (IH (k, x) Hx).
    specialize (Hc (k, x) Hx). apply andb_true_iff in Hc. apply Hc.
Qed.

(** After the call on a payload none of whose objects has a property of
    its own named [hasOwnProperty], no array holds an [undefined] element
    and no object a property that is [undefined], at any depth. *)
Lemma removeUndefinedFields_clean (v : value) :
  plain v = true -> clean (removeUndefinedFields v) = true.
Proof.
  intros _. rewrite removeUndefinedFields_sanitized. apply sanitized_clean.
Qed.

(** C2.  The sanitizer is idempotent: sanitizing the value a first call
    has left changes nothing, for every payload [P]. *)
Theorem removeUndefinedFields_idempotent (P : value) :
  removeUndefinedFields (removeUndefinedFields P) = removeUndefinedFields P.
Proof.
  rewrite !removeUndefinedFields_sanitized.
  apply sanitized_fixpoint, sanitized_clean.
Qed.

(** C1 (the code departs from it).  On the array [[1, undefined, 2]] the
    compaction of the specification keeps [1] and [2] in this order; the
    call of [splice] with one argument makes the sanitizer cut the array
    at the [undefined] element, so that the defined element [2] is lost. *)
Theorem removeUndefinedFields_cuts_at_first_undefined :
  removeUndefinedFields (VArr [VNum 1; VUndefined; VNum 2]) = VArr [VNum 1]
  /\ compact [VNum 1; VUndefined; VNum 2] = [VNum 1; VNum 2]
  /\ removeUndefinedFields (VArr [VNum 1; VUndefined; VNum 2])
     <> VArr (compact [VNum 1; VUndefined; VNum 2]).
Proof.
  repeat split; try reflexivity.
  vm_compute. discriminate.
Qed.

(** A payload nested three levels deep is sanitized by a recursion four
    calls deep. *)
Lemma removeUndefinedFields_fuel_enough_witness :
  removeUndefinedFields_fuel 4
    (VObj [("a", VUndefined);
           ("b", VArr [VObj [("c", VUndefined); ("d", VNull)]; VUndefined; VNum 3])])
  = Some (removeUndefinedFields
            (VObj [("a", VUndefined);
                   ("b", VArr [VObj [("c", VUndefined); ("d", VNull)];
                               VUndefined; VNum 3])])).
Proof.
  apply (removeUndefinedFields_fuel_enough
           (VObj [("a", VUndefined);
                  ("b", VArr [VObj [("c", VUndefined); ("d", VNull)];
                              VUndefined; VNum 3])]) 4).
  simpl. lia.
Defined.

(** A payload with [undefined] at three places. *)
Lemma removeUndefinedFields_clean_witness :
  clean (removeUndefinedFields
           (VObj [("a", VUndefined);
                  ("b", VArr [VObj [("c", VUndefined); ("d", VNull)];
                              VUndefined; VNum 3])]))
  = true.
Proof.
  exact (removeUndefinedFields_clean
           (VObj [("a", VUndefined);
                  ("b", VArr [VObj [("c", VUndefined); ("d", VNull)];
                              VUndefined; VNum 3])]) eq_refl).
Defined.

Lemma removeUndefinedFields_object_witness :
  removeUndefinedFields
    (VObj [("a", VUndefined); ("b", VObj [("c", VUndefined); ("d", VNull)])])
  = VObj (map (fun kv : string * value =>
                 (fst kv, removeUndefinedFields (snd kv)))
            (defined_props
               [("a", VUndefined); ("b", VObj [("c", VUndefined); ("d", VNull)])])).
Proof.
  exact (removeUndefinedFields_object
           [("a", VUndefined); ("b", VObj [("c", VUndefined); ("d", VNull)])]
           eq_refl).
Defined.

End SanitizerFacts.

(* ===================================================================== *)
(** * Properties of the service *)
(* ===================================================================== *)

Module ServiceFacts.

Import SanitizerFacts.

Section Facts.

Context {World Handle : Type} {C : Collaborators World Handle}.

Local Abbreviation state := (state World Handle).
Local Abbreviation event := (event Handle).

(** *** The phases of [addJob], one collaborator call at a time *)

Ltac unfold_monad :=
  unfold bind, ret, throw, emit, call, try_catch, get_self, set_publicKey,
    set_provider, read, now; cbn beta iota.

Lemma fetchPublicKey_spec (s : state) :
  fetchPublicKey s =
  let tr := trace s ++ [EFetchRecord "Public Key" "BACKGROUND_PUBLIC_KEY"] in
  match storage_fetchRecord "Public Key" "BACKGROUND_PUBLIC_KEY" (world s) with
  | (Resolved publicKeyRecord, w) =>
      match get_prop (record_getData publicKeyRecord w) "value" with
      | Some v =>
          (Resolved tt,
           {| self := {| queueType := queueType (self s);
                         _publicKey := v;
                         _provider := _provider (self s) |};
              world := w; trace := tr |})
      | None => (Rejected TypeError, {| self := self s; world := w; trace := tr |})
      end
  | (Rejected e, w) => (Rejected e, {| self := self s; world := w; trace := tr |})
  | (Pending, w) => (Pending, {| self := self s; world := w; trace := tr |})
  end.
Proof.
  unfold fetchPublicKey. unfold_monad. simpl.
  destruct (storage_fetchRecord _ _ (world s)) as [[rec|e|] w]; simpl;
    try reflexivity.
  destruct (get_prop (record_getData rec w) "value"); reflexivity.
Qed.

Lemma key_phase_spec (sensitiveData : value) (s : state) :
  key_phase sensitiveData s =
  if negb (truthy (_publicKey (self s))) && truthy sensitiveData
  then fetchPublicKey s
  else (Resolved tt, s).
Proof.
  unfold key_phase. unfold_monad.
  destruct (negb (truthy (_publicKey (self s))) && truthy sensitiveData);
    reflexivity.
Qed.

Lemma encrypt_phase_spec (sensitiveData : value) (s : state) :
  encrypt_phase sensitiveData s =
  if truthy sensitiveData then
    let pk := _publicKey (self s) in
    match encrypt sensitiveData pk (world s) with
    | (Resolved payload, w) =>
        (Resolved payload,
         {| self := self s; world := w;
            trace := trace s ++ [EEncrypt sensitiveData pk (Resolved payload)] |})
    | (Rejected err, w) =>
        (Resolved VUndefined,
         {| self := self s; world := w;
            trace := trace s ++ [EEncrypt sensitiveData pk (Rejected err);
                                 EConsoleLog err] |})
    | (Pending, w) =>
        (Pending,
         {| self := self s; world := w;
            trace := trace s ++ [EEncrypt sensitiveData pk Pending] |})
    end
  else (Resolved VUndefined, s).
Proof.
  unfold encrypt_phase. destruct (truthy sensitiveData); [|reflexivity].
  unfold_monad.
  destruct (encrypt sensitiveData (_publicKey (self s)) (world s))
    as [[payload|err|] w]; simpl; try reflexivity.
  now rewrite <- app_assoc.
Qed.

Lemma truthy_get_prop (o : value) (k : string) :
  truthy o = true -> get_prop o k = Some (prop o k).
Proof. destruct o; simpl; intros H; try discriminate H; reflexivity. Qed.

Lemma make_jobData_spec (type data encryptedPayload : value) (s : state) :
  make_jobData type data encryptedPayload s
  = (Resolved (job_record type data encryptedPayload), s).
Proof.
  unfold make_jobData, job_record.
  destruct (truthy encryptedPayload) eqn:Ht; [|reflexivity].
  unfold_monad. rewrite !(truthy_get_prop _ _ Ht). reflexivity.
Qed.

Lemma store_phase_spec (type data encryptedPayload : value) (s : state) :
  store_phase type data encryptedPayload s =
  let path := route (queueType (self s)) in
  let jobData := job_record type data encryptedPayload in
  match storage_createRecord path (world s) with
  | (Resolved record, w) =>
      let (r, w') := record_update record jobData w in
      (r, {| self := self s; world := w';
             trace := trace s ++ [ECreateRecord path; EUpdate record jobData] |})
  | (Rejected e, w) =>
      (Rejected e, {| self := self s; world := w;
                      trace := trace s ++ [ECreateRecord path] |})
  | (Pending, w) =>
      (Pending, {| self := self s; world := w;
                   trace := trace s ++ [ECreateRecord path] |})
  end.
Proof.
  unfold store_phase.
  unfold bind at 1. unfold get_self at 1. cbn beta iota.
  unfold bind at 1. unfold emit at 1. cbn beta iota.
  unfold bind at 1. unfold call at 1. cbn [world self trace].
  destruct (storage_createRecord _ (world s)) as [[record|e|] w];
    try reflexivity.
  unfold bind at 1. rewrite make_jobData_spec.
  unfold_monad. cbn [world self trace].
  destruct (record_update record _ w) as [r w'].
  now rewrite <- app_assoc.
Qed.

Lemma addJob_chain_spec (type data sensitiveData : value) (s : state) :
  addJob_chain type data sensitiveData s =
  match key_phase sensitiveData s with
  | (Resolved _, s1) =>
      match encrypt_phase sensitiveData s1 with
      | (Resolved encryptedPayload, s2) =>
          store_phase type data encryptedPayload s2
      | (Rejected e, s2) => (Rejected e, s2)
      | (Pending, s2) => (Pending, s2)
      end
  | (Rejected e, s1) => (Rejected e, s1)
  | (Pending, s1) => (Pending, s1)
  end.
Proof.
  unfold addJob_chain, bind, ret.
  destruct (key_phase sensitiveData s) as [[[]|e|] s1]; try reflexivity.
  destruct (encrypt_phase sensitiveData s1) as [[p|e|] s2]; try reflexivity.
  destruct (store_phase type data p s2) as [[r|e|] s3]; reflexivity.
Qed.

Lemma await_addJob (type data sensitiveData : value) :
  await (addJob type data sensitiveData)
  = addJob_chain type (removeUndefinedFields data)
      (removeUndefinedFields sensitiveData).
Proof. reflexivity. Qed.


(** *** Case analysis over the collaborators' answers *)

Ltac break_match :=
  match goal with
  | |- context [match ?x with _ => _ end] =>
      lazymatch x with
      | context [match _ with _ => _ end] => fail
      | _ => destruct x eqn:?
      end
  end.

Ltac run_addJob :=
  repeat first
    [ rewrite await_addJob
    | rewrite addJob_chain_spec
    | rewrite key_phase_spec
    | rewrite fetchPublicKey_spec
    | rewrite encrypt_phase_spec
    | rewrite store_phase_spec
    | progress cbn [self world trace fst snd queueType _publicKey _provider]
    | progress cbv zeta
    | break_match ].

Lemma fetch_count_app (tr1 tr2 : list event) :
  fetch_count (tr1 ++ tr2) = fetch_count tr1 + fetch_count tr2.
Proof. unfold fetch_count. now rewrite filter_app, length_app. Qed.

Lemma created_paths_app (tr1 tr2 : list event) :
  created_paths (tr1 ++ tr2) = created_paths tr1 ++ created_paths tr2.
Proof. unfold created_paths. apply flat_map_app. Qed.

(** One call fetches the key exactly when none is cached and sensitive
    data was given, and then once. *)
Lemma addJob_chain_fetch_count (type data sensitiveData : value) (s : state) :
  fetch_count (trace (snd (addJob_chain type data sensitiveData s)))
  = fetch_count (trace s)
    + (if negb (truthy (_publicKey (self s))) && truthy sensitiveData
       then 1 else 0).
Proof.
  run_addJob; rewrite ?fetch_count_app; unfold fetch_count; simpl; lia.
Qed.

(** A cached key stays cached. *)
Lemma addJob_chain_keeps_key (type data sensitiveData : value) (s : state) :
  truthy (_publicKey (self s)) = true ->
  self (snd (addJob_chain type data sensitiveData s)) = self s.
Proof.
  intros Hk. rewrite addJob_chain_spec, key_phase_spec, Hk. simpl.
  run_addJob; reflexivity.
Qed.

Lemma addJobs_no_fetch (calls : list (value * value * value)) (s : state) :
  truthy (_publicKey (self s)) = true ->
  fetch_count (trace (addJobs calls s)) = fetch_count (trace s)
  /\ self (addJobs calls s) = self s.
Proof.
  revert s. induction calls as [|[[type data] sd] rest IH]; intros s Hk; cbn [addJobs].
  - split; reflexivity.
  - rewrite await_addJob.
    pose proof (addJob_chain_keeps_key type (removeUndefinedFields data)
                  (removeUndefinedFields sd) s Hk) as Hself.
    pose proof (addJob_chain_fetch_count type (removeUndefinedFields data)
                  (removeUndefinedFields sd) s) as Hcount.
    rewrite Hk in Hcount. simpl in Hcount.
    destruct (IH (snd (addJob_chain type (removeUndefinedFields data)
                         (removeUndefinedFields sd) s))) as [IH1 IH2].
    + now rewrite Hself.
    + rewrite IH1, IH2, Hself, Hcount. split; [lia | reflexivity].
Qed.


Lemma is_str_true (lit : string) (v : value) :
  is_str lit v = true <-> v = VStr lit.
Proof.
  destruct v; simpl; split; intros H; try discriminate H.
  - apply String.eqb_eq in H. now subst.
  - injection H as ->. apply String.eqb_refl.
Qed.

Lemma is_queue_type_true (type : value) :
  is_queue_type type = true <->
  type = VStr "session" \/ type = VStr "fast" \/ type = VStr "default"
  \/ type = VUndefined.
Proof.
  unfold is_queue_type. rewrite !orb_true_iff, !is_str_true.
  assert (Hu : is_undefined type = true <-> type = VUndefined)
    by (destruct type; simpl; split; intros H; congruence).
  rewrite Hu. tauto.
Qed.

Lemma constructor_checks_type (storage : bool) (type : value) :
  JobQueueService storage type =
  if negb storage then inl (Error "Instance of storage service required")
  else if is_queue_type type
       then inr {| queueType := type; _publicKey := VUndefined; _provider := false |}
       else inl (Error ("Invalid value for the type param, value: "
                        ++ to_string type)%string).
Proof.
  unfold JobQueueService, is_queue_type.
  destruct storage; simpl; [|reflexivity].
  destruct (is_str "session" type), (is_str "fast" type),
    (is_str "default" type), (is_undefined type); reflexivity.
Qed.

(** A call creates at most one record, in the namespace of the queue
    type; it creates one whenever it resolves.  The queue type is never
    changed. *)
Lemma addJob_chain_route (type data sensitiveData : value) (s : state) :
  let r := addJob_chain type data sensitiveData s in
  queueType (self (snd r)) = queueType (self s)
  /\ exists l,
       created_paths (trace (snd r)) = created_paths (trace s) ++ l
       /\ (l = [] \/ l = [route (queueType (self s))])
       /\ (forall record, fst r = Resolved record ->
           l = [route (queueType (self s))]).
Proof.
  cbv zeta.
  run_addJob; (split; [reflexivity|]);
    rewrite ?created_paths_app; cbn [created_paths flat_map app];
    rewrite <- ?app_assoc; cbn [app];
    first
      [ exists [route (queueType (self s))];
        split; [reflexivity|]; split; [now right | reflexivity]
      | exists (@nil string); rewrite ?app_nil_r;
        split; [reflexivity|]; split; [now left | discriminate] ].
Qed.

(** C4.  The queue type decides the namespace of the records [addJob]
    creates: ["_fastQueue/task"] for [fast], ["_sessionQueue/task"] for
    [session], ["_queue/task"] for [default] and for a type left
    undefined; any other value makes the constructor itself throw, so
    that no submitter with such a type ever exists. *)
Theorem queue_routing :
  (forall (storage : bool) (type : value),
      type <> VStr "session" -> type <> VStr "fast" ->
      type <> VStr "default" -> type <> VUndefined ->
      exists message, JobQueueService storage type = inl (Error message))
  /\ (forall type : value,
         type = VStr "session" \/ type = VStr "fast" \/ type = VStr "default"
         \/ type = VUndefined ->
         exists svc, JobQueueService true type = inr svc
                     /\ queueType svc = type)
  /\ (forall (s : state) (type data sensitiveData : value),
         let r := await (addJob type data sensitiveData) s in
         queueType (self (snd r)) = queueType (self s)
         /\ exists l,
              created_paths (trace (snd r)) = created_paths (trace s) ++ l
              /\ (l = [] \/ l = [route (queueType (self s))])
              /\ (forall record, fst r = Resolved record ->
                  l = [route (queueType (self s))]))
  /\ route (VStr "fast") = "_fastQueue/task"
  /\ route (VStr "session") = "_sessionQueue/task"
  /\ route (VStr "default") = "_queue/task"
  /\ route VUndefined = "_queue/task".
Proof.
  split; [|split; [|split]].
  - intros storage type H1 H2 H3 H4. rewrite constructor_checks_type.
    destruct storage; simpl; [|eauto].
    destruct (is_queue_type type) eqn:E; [|eauto].
    apply is_queue_type_true in E. tauto.
  - intros type H. rewrite constructor_checks_type. simpl.
    apply is_queue_type_true in H. rewrite H. eauto.
  - intros s type data sensitiveData. rewrite await_addJob.
    apply addJob_chain_route.
  - repeat split; reflexivity.
Qed.

(** Nothing but the chain of [addJob] fetches the key record:
    [performJob] adds no fetch to those of the [addJob] it calls, and the
    callback of line 91, [createWorker], the worker wrapper and [shutdown]
    make none. *)
Lemma performJob_fetch_count
    (this_addJob : value -> value -> value -> invocation Handle)
    (type data sensitiveData : value) (s : state) :
  fetch_count (trace (snd (performJob this_addJob type data sensitiveData s)))
  = fetch_count (trace (snd (await (this_addJob type data sensitiveData) s))).
Proof.
  unfold performJob, await, throw, emit.
  destruct (this_addJob type data sensitiveData) as [e|promise]; cbn [snd trace].
  - rewrite fetch_count_app. unfold fetch_count. simpl. lia.
  - destruct (promise s) as [[record|e|] s']; cbn [snd trace]; try reflexivity.
    rewrite fetch_count_app. unfold fetch_count. simpl. lia.
Qed.

Lemma notify_all_fetch_count (changes : list value) (w : job_watch) (s : state) :
  fetch_count (trace (snd (notify_all changes w s))) = fetch_count (trace s).
Proof.
  revert w s. induction changes as [|d rest IH]; intros w s; simpl;
    [reflexivity|].
  destruct (notify d w s) as [w' s'] eqn:Hn. rewrite IH.
  unfold notify, on_change, emit in Hn.
  destruct (synced w); [|now inversion Hn].
  destruct (is_null d); inversion Hn; cbn [trace];
    rewrite ?fetch_count_app; unfold fetch_count; simpl; lia.
Qed.

(** How [appends] goes through the constructions of a computation. *)
Section Appends.

Variable P : event -> Prop.

Lemma appends_ret {A} (a : A) : appends P (ret (World := World) a).
Proof.
  intros s. split; [reflexivity|]. exists []. now rewrite app_nil_r.
Qed.

Lemma appends_throw {A} (e : error) : appends P (@throw World Handle A e).
Proof.
  intros s. split; [reflexivity|]. exists []. now rewrite app_nil_r.
Qed.

Lemma appends_emit (e : event) : P e -> appends P (emit (World := World) e).
Proof.
  intros He s. split; [reflexivity|]. exists [e]. split; [reflexivity|].
  now constructor.
Qed.

Lemma appends_call {A} (f : World -> outcome A * World) : appends P (call f).
Proof.
  intros s. unfold call. destruct (f (world s)) as [r w]. cbn [snd self trace].
  split; [reflexivity|]. exists []. now rewrite app_nil_r.
Qed.

Lemma appends_now : appends P now.
Proof.
  intros s. unfold now. destruct (getTime (world s)) as [t w].
  cbn [snd self trace]. split; [reflexivity|]. exists [].
  now rewrite app_nil_r.
Qed.

Lemma appends_bind {A B} (m : M World Handle A) (k : A -> M World Handle B) :
  appends P m -> (forall a, appends P (k a)) -> appends P (bind m k).
Proof.
  intros Hm Hk s. unfold bind.
  destruct (Hm s) as [Hself [evs [Htr Hall]]].
  destruct (m s) as [[a|e|] s1]; cbn [snd] in *; [|now eauto|now eauto].
  destruct (Hk a s1) as [Hself' [evs' [Htr' Hall']]].
  split; [congruence|]. exists (evs ++ evs').
  rewrite Htr', Htr, app_assoc. split; [reflexivity|]. now apply Forall_app.
Qed.

Lemma appends_world {A} (m : M World Handle A) (pass : World -> World) :
  appends P m ->
  appends P (fun s => m {| self := self s; world := pass (world s);
                           trace := trace s |}).
Proof. intros Hm s. exact (Hm _). Qed.

Lemma appends_play (complete : props -> M World Handle unit) (sc : script) :
  (forall job, appends P (complete job)) -> appends P (play complete sc).
Proof.
  intros Hc. induction sc as [|e|job pass next IH]; cbn [play].
  - apply appends_ret.
  - apply appends_throw.
  - intros s.
    destruct (Hc job {| self := self s; world := pass (world s);
                        trace := trace s |}) as [Hself [evs [Htr Hall]]].
    destruct (complete job _) as [r s1]. cbn [snd self trace] in *.
    destruct (IH r s1) as [Hself' [evs' [Htr' Hall']]].
    split; [congruence|]. exists (evs ++ evs').
    rewrite Htr', Htr, app_assoc. split; [reflexivity|]. now apply Forall_app.
Qed.

End Appends.

Lemma appends_impl {A} (P Q : event -> Prop) (m : M World Handle A) :
  (forall e, P e -> Q e) -> appends P m -> appends Q m.
Proof.
  intros HPQ Hm s. destruct (Hm s) as [Hs [evs [Htr Hall]]].
  split; [exact Hs|]. exists evs. split; [exact Htr|].
  eapply Forall_impl; [exact HPQ | exact Hall].
Qed.

Lemma prefix_call_worker_call (e : event) : prefix_call e -> worker_call e.
Proof. destruct e; simpl; tauto. Qed.

Lemma logService_log_appends (logService : option log_service)
    (message : string) (data : value) :
  appends (World := World) (Handle := Handle) prefix_call
    (logService_log logService message data).
Proof.
  unfold logService_log. destruct logService; [|apply appends_throw].
  apply appends_bind; [now apply appends_emit | intros; apply appends_call].
Qed.

Lemma decrypt_step_appends (logService : option log_service)
    (keypair : value) (job : props) :
  appends prefix_call (decrypt_step logService keypair job).
Proof.
  unfold decrypt_step.
  destruct (truthy (field job "encryptedData")); [|apply appends_ret].
  assert (Hlog : forall err, appends (Handle := Handle) prefix_call
                               (logService_error logService err)).
  { intros err. unfold logService_error.
    destruct logService; [|apply appends_throw].
    apply appends_bind; [now apply appends_emit | intros; apply appends_call]. }
  intros s. destruct (decrypt _ keypair (world s)) as [r w].
  set (s1 := {| self := self s; world := w; trace := _ |}).
  assert (Hkeep : forall (A : Type) (m : M World Handle A),
             appends prefix_call m ->
             self (snd (m s1)) = self s
             /\ exists evs, trace (snd (m s1)) = trace s ++ evs
                            /\ Forall prefix_call evs).
  { intros A m Hm. destruct (Hm s1) as [Hs [evs [Htr Hall]]].
    split; [exact Hs|]. eexists.
    rewrite Htr. subst s1. cbn [trace]. rewrite <- app_assoc.
    split; [reflexivity|]. cbn [app]. constructor; [exact I | exact Hall]. }
  destruct r as [d|err|].
  - destruct (Object_assign (field job "data") d) as [merged|err|].
    + apply (Hkeep _ (ret _)), appends_ret.
    + apply Hkeep, appends_bind; [apply Hlog | intros; apply appends_ret].
    + apply (Hkeep _ (fun s => (Pending, s))).
      intros s'. split; [reflexivity|]. exists []. now rewrite app_nil_r.
  - apply Hkeep, appends_bind; [apply Hlog | intros; apply appends_ret].
  - apply (Hkeep _ (fun s => (@Pending props, s))).
    intros s'. split; [reflexivity|]. exists []. now rewrite app_nil_r.
Qed.

Lemma on_complete_appends (dataService : option data_service)
    (jobStartTime : Z) (job : props) :
  appends worker_call (on_complete dataService jobStartTime job).
Proof.
  unfold on_complete.
  apply appends_bind; [apply appends_now | intros t1].
  apply appends_bind; [apply appends_now | intros t2].
  apply appends_bind; [|intros; now apply appends_emit].
  unfold dataService_create. destruct dataService; [|apply appends_throw].
  apply appends_bind; [now apply appends_emit | intros; apply appends_call].
Qed.

(** The wrapper changes nothing of the instance and calls nothing but
    its own collaborators. *)
Lemma innerProcessJob_appends (processJob : processor) (keypair : value)
    (logService : option log_service) (dataService : option data_service)
    (job : props) :
  appends worker_call
    (innerProcessJob processJob keypair logService dataService job).
Proof.
  unfold innerProcessJob.
  apply appends_bind; [apply appends_now | intros t0].
  apply appends_bind.
  { eapply appends_impl; [apply prefix_call_worker_call|].
    apply logService_log_appends. }
  intros _. apply appends_bind.
  { eapply appends_impl; [apply prefix_call_worker_call|].
    apply decrypt_step_appends. }
  intros job1.
  apply appends_bind; [now apply appends_emit | intros _].
  intros s. apply appends_play. intros job2. apply on_complete_appends.
Qed.

Lemma appends_fetch_count {A} (m : M World Handle A) (s : state) :
  appends worker_call m ->
  fetch_count (trace (snd (m s))) = fetch_count (trace s).
Proof.
  intros Hm. destruct (Hm s) as [_ [evs [-> Hall]]].
  rewrite fetch_count_app.
  assert (Hz : fetch_count evs = 0).
  { unfold fetch_count. induction Hall as [|e r He Hr IH]; [reflexivity|].
    destruct e; try contradiction; exact IH. }
  lia.
Qed.

Lemma worker_never_fetches (provider : bool) (processJob : processor)
    (maybe_processJob : option processor) (keypair : value)
    (logService : option log_service) (dataService : option data_service)
    (job : props) (s : state) :
  fetch_count
    (trace (snd (createWorker provider maybe_processJob keypair logService
                   dataService s)))
  = fetch_count (trace s)
  /\ fetch_count
       (trace (snd (innerProcessJob processJob keypair logService dataService
                      job s)))
     = fetch_count (trace s)
  /\ fetch_count (trace (snd (shutdown s))) = fetch_count (trace s).
Proof.
  split; [|split].
  - unfold createWorker, bind, ret, throw, emit, set_provider.
    repeat break_match; cbn [snd trace];
      rewrite ?fetch_count_app; unfold fetch_count; simpl; lia.
  - apply appends_fetch_count, innerProcessJob_appends.
  - unfold shutdown, bind, ret, throw, emit, call, get_self.
    repeat break_match; cbn [snd trace];
      rewrite ?fetch_count_app; unfold fetch_count; simpl; lia.
Qed.

(** After the key phase the chain changes nothing of the instance. *)
Lemma addJob_chain_self (type data sensitiveData : value) (s : state) :
  self (snd (addJob_chain type data sensitiveData s))
  = self (snd (key_phase sensitiveData s)).
Proof.
  rewrite addJob_chain_spec.
  destruct (key_phase sensitiveData s) as [[[]|e|] s1]; cbn [snd];
    try reflexivity.
  rewrite encrypt_phase_spec, ?store_phase_spec.
  repeat first [ rewrite store_phase_spec
               | progress cbn [snd self world trace]
               | progress cbv zeta
               | break_match ]; reflexivity.
Qed.

(** C6 (amended).  A call of [addJob] fetches the key record exactly
    when the cached key is falsy and sensitive data was given, and then
    once; a fetch that resolves caches the [value] of the record; as soon
    as a call has left a truthy key cached, no later call of a sequence
    fetches again.  Among the methods of the service only [addJob] calls
    [fetchPublicKey] ([performJob] through the [addJob] it calls, the
    change callback, [createWorker], the worker wrapper and [shutdown]
    never); [fetchPublicKey] itself is public and fetches at every
    call. *)
Theorem addJob_fetches_until_key_cached (calls : list (value * value * value))
    (type data sensitiveData : value) (s : state) :
  let s1 := snd (await (addJob type data sensitiveData) s) in
  let needed := negb (truthy (_publicKey (self s))) && truthy sensitiveData in
  fetch_count (trace s1)
  = fetch_count (trace s) + (if needed then 1 else 0)
  /\ (forall publicKeyRecord w key,
         needed = true ->
         storage_fetchRecord "Public Key" "BACKGROUND_PUBLIC_KEY" (world s)
         = (Resolved publicKeyRecord, w) ->
         get_prop (record_getData publicKeyRecord w) "value" = Some key ->
         _publicKey (self s1) = key)
  /\ (truthy (_publicKey (self s1)) = true ->
      fetch_count (trace (addJobs calls s1)) = fetch_count (trace s1))
  /\ (forall this_addJob type' data' sensitiveData' (s' : state),
         fetch_count
           (trace (snd (performJob this_addJob type' data' sensitiveData' s')))
         = fetch_count
             (trace (snd (await (this_addJob type' data' sensitiveData') s'))))
  /\ (forall changes w (s' : state),
         fetch_count (trace (snd (notify_all changes w s')))
         = fetch_count (trace s'))
  /\ (forall provider processJob keypair logService dataService (s' : state),
         fetch_count
           (trace (snd (createWorker provider processJob keypair logService
                          dataService s')))
         = fetch_count (trace s'))
  /\ (forall processJob keypair logService dataService job (s' : state),
         fetch_count
           (trace (snd (innerProcessJob processJob keypair logService
                          dataService job s')))
         = fetch_count (trace s'))
  /\ (forall s' : state,
         fetch_count (trace (snd (shutdown s'))) = fetch_count (trace s'))
  /\ (forall s' : state,
         fetch_count (trace (snd (fetchPublicKey s')))
         = S (fetch_count (trace s'))).
Proof.
  cbv zeta. rewrite await_addJob. repeat split.
  - rewrite addJob_chain_fetch_count, removeUndefinedFields_truthy.
    reflexivity.
  - intros rec w key Hneeded Hfetch Hvalue.
    rewrite addJob_chain_self, key_phase_spec.
    rewrite removeUndefinedFields_truthy, Hneeded.
    rewrite fetchPublicKey_spec. cbv zeta. rewrite Hfetch, Hvalue.
    reflexivity.
  - intros Hk. now apply addJobs_no_fetch.
  - intros. apply performJob_fetch_count.
  - intros. apply notify_all_fetch_count.
  - intros provider processJob keypair logService dataService s'.
    apply (worker_never_fetches provider (fun job w => Quiet)
             processJob keypair logService dataService [] s').
  - intros processJob keypair logService dataService job s'.
    apply (worker_never_fetches true processJob None keypair logService
             dataService job s').
  - intros s'.
    apply (worker_never_fetches true (fun job w => Quiet) None
             VUndefined None None [] s').
  - intros s'. rewrite fetchPublicKey_spec. cbv zeta.
    repeat break_match; cbn [snd trace];
      rewrite fetch_count_app; unfold fetch_count; simpl; lia.
Qed.

Lemma job_record_keys (type data encryptedPayload : value) :
  has_key "encryptedData" (job_record type data encryptedPayload)
  = truthy encryptedPayload
  /\ has_key "encryptedKey" (job_record type data encryptedPayload)
     = truthy encryptedPayload.
Proof.
  unfold job_record. destruct (truthy encryptedPayload); split; reflexivity.
Qed.

Ltac split_in H :=
  cbn [In] in H;
  repeat match type of H with
         | _ \/ _ => destruct H as [H|H]
         end;
  try contradiction; try discriminate H.

(** The events of one call, and what it writes: the record is built from
    [type], [data] and the payload [p] the encryption has left, which is
    the value [encrypt] returned if it did return, and [undefined] if it
    threw or was not called. *)
Lemma addJob_chain_updates (type data sensitiveData : value) (s : state) :
  exists evs,
    trace (snd (addJob_chain type data sensitiveData s)) = trace s ++ evs
    /\ forall record jobData,
         In (EUpdate record jobData) evs ->
         exists p,
           jobData = job_record type data p
           /\ (truthy p = true ->
               truthy sensitiveData = true
               /\ exists pk, In (EEncrypt sensitiveData pk (Resolved p)) evs)
           /\ (forall pk r,
                  In (EEncrypt sensitiveData pk r) evs ->
                  r = Resolved p
                  \/ (p = VUndefined /\ exists err, r = Rejected err)).
Proof.
  run_addJob; rewrite <- ?app_assoc; cbn [app];
    (eexists; split; [try reflexivity; symmetry; apply app_nil_r|]);
    intros record jobData Hin; split_in Hin;
    injection Hin as <- <-;
    (eexists; split; [reflexivity|]); split.
  all: try (intros Ht; discriminate Ht).
  all: try (intros Ht; split;
            [first [reflexivity | assumption | congruence]
            | eexists; cbn [In]; eauto 6]).
  all: intros pk r Hin; split_in Hin; injection Hin as <- <-; eauto.
Qed.

(** C3.  In every record [addJob] writes, [encryptedData] and
    [encryptedKey] are both present or both absent; they are present
    exactly when sensitive data was given and the encryption returned a
    payload. *)
Theorem encrypted_fields_paired (type data sensitiveData : value) (s : state) :
  let sensitiveData' := removeUndefinedFields sensitiveData in
  exists evs,
    trace (snd (await (addJob type data sensitiveData) s)) = trace s ++ evs
    /\ forall record jobData,
         In (EUpdate record jobData) evs ->
         has_key "encryptedData" jobData = has_key "encryptedKey" jobData
         /\ (has_key "encryptedData" jobData = true <->
             truthy sensitiveData' = true
             /\ exists pk payload,
                  In (EEncrypt sensitiveData' pk (Resolved payload)) evs
                  /\ truthy payload = true).
Proof.
  cbv zeta. rewrite await_addJob.
  destruct (addJob_chain_updates type (removeUndefinedFields data)
              (removeUndefinedFields sensitiveData) s) as [evs [Htr Hupd]].
  exists evs. split; [exact Htr|].
  intros record jobData Hin.
  destruct (Hupd record jobData Hin) as [p [-> [Hyes Hall]]].
  destruct (job_record_keys type (removeUndefinedFields data) p) as [-> ->].
  split; [reflexivity|]. split.
  - intros Hp. destruct (Hyes Hp) as [Hsd [pk Hpk]]. eauto.
  - intros [_ [pk [payload [Hpk Hp]]]].
    destruct (Hall pk _ Hpk) as [Heq | [_ [err Herr]]].
    + injection Heq as <-. exact Hp.
    + discriminate Herr.
Qed.

(** C10.  Whatever [addJob] writes is the record [{type, data}] with the
    sanitized [data], to which only the two fields taken from the payload
    [encrypt] returned are added; when the encryption throws, the record
    is [{type, data}] alone.  The sensitive data itself goes to [encrypt]
    and nowhere else. *)
Theorem sensitive_data_never_stored (type data sensitiveData : value) (s : state) :
  let data' := removeUndefinedFields data in
  let sensitiveData' := removeUndefinedFields sensitiveData in
  exists evs,
    trace (snd (await (addJob type data sensitiveData) s)) = trace s ++ evs
    /\ forall record jobData,
         In (EUpdate record jobData) evs ->
         (jobData = VObj [("type", type); ("data", data')]
          \/ exists pk payload,
               In (EEncrypt sensitiveData' pk (Resolved payload)) evs
               /\ jobData = VObj [("type", type); ("data", data');
                                  ("encryptedData", prop payload "encryptedData");
                                  ("encryptedKey", prop payload "encryptedKey")])
         /\ (forall pk err,
                In (EEncrypt sensitiveData' pk (Rejected err)) evs ->
                jobData = VObj [("type", type); ("data", data')]).
Proof.
  cbv zeta. rewrite await_addJob.
  destruct (addJob_chain_updates type (removeUndefinedFields data)
              (removeUndefinedFields sensitiveData) s) as [evs [Htr Hupd]].
  exists evs. split; [exact Htr|].
  intros record jobData Hin.
  destruct (Hupd record jobData Hin) as [p [-> [Hyes Hall]]].
  split.
  - unfold job_record. destruct (truthy p) eqn:Hp; [right | now left].
    destruct (Hyes eq_refl) as [_ [pk Hpk]]. eauto.
  - intros pk err Hpk.
    destruct (Hall pk _ Hpk) as [Heq | [-> _]]; [discriminate Heq|].
    reflexivity.
Qed.

(** C5.  When [encrypt] throws, the error is logged and the submission
    goes on as [store_phase] without a payload: whatever the storage
    service answers is the answer of [addJob]; if the record is created
    and updated, [addJob] resolves with it, the record written being
    [{type, data}]. *)
Theorem encryption_failure_tolerated (type data sensitiveData : value)
    (s s1 : state) (err : error) (w2 : World) :
  let data' := removeUndefinedFields data in
  let sensitiveData' := removeUndefinedFields sensitiveData in
  truthy sensitiveData' = true ->
  key_phase sensitiveData' s = (Resolved tt, s1) ->
  encrypt sensitiveData' (_publicKey (self s1)) (world s1) = (Rejected err, w2) ->
  let s2 :=
    {| self := self s1; world := w2;
       trace := trace s1
                ++ [EEncrypt sensitiveData' (_publicKey (self s1)) (Rejected err);
                    EConsoleLog err] |} in
  await (addJob type data sensitiveData) s = store_phase type data' VUndefined s2
  /\ forall record w3 r w4,
       storage_createRecord (route (queueType (self s1))) w2 = (Resolved record, w3) ->
       record_update record (VObj [("type", type); ("data", data')]) w3
       = (Resolved r, w4) ->
       await (addJob type data sensitiveData) s
       = (Resolved r,
          {| self := self s1; world := w4;
             trace := trace s2
                      ++ [ECreateRecord (route (queueType (self s1)));
                          EUpdate record (VObj [("type", type); ("data", data')])] |}).
Proof.
  cbv zeta. intros Hsd Hkey Henc.
  assert (Hrun : await (addJob type data sensitiveData) s
                 = store_phase type (removeUndefinedFields data) VUndefined
                     {| self := self s1; world := w2;
                        trace := trace s1
                                 ++ [EEncrypt (removeUndefinedFields sensitiveData)
                                       (_publicKey (self s1)) (Rejected err);
                                     EConsoleLog err] |}).
  { rewrite await_addJob, addJob_chain_spec, Hkey, encrypt_phase_spec, Hsd.
    cbv zeta. rewrite Henc. reflexivity. }
  split; [exact Hrun|].
  intros record w3 r w4 Hcreate Hupdate.
  rewrite Hrun, store_phase_spec. cbv zeta. cbn [self world trace].
  rewrite Hcreate. unfold job_record. cbn [truthy].
  rewrite Hupdate. reflexivity.
Qed.


(** *** [performJob] *)

(** A chain that is rejected, or never settled, leaves the promise of
    [performJob] pending: only a throw reaches the [catch]. *)
Lemma performJob_pending_on_rejection
    (this_addJob : value -> value -> value -> invocation Handle)
    (type data sensitiveData : value) (promise : M World Handle Handle)
    (s s1 : state) (e : error) :
  this_addJob type data sensitiveData = Returned promise ->
  promise s = (Rejected e, s1) ->
  performJob this_addJob type data sensitiveData s
  = ({| deferred := PPending; synced := None |}, s1).
Proof. intros Hcall Hrun. unfold performJob. now rewrite Hcall, Hrun. Qed.

(** C7.  When the invocation of [addJob] throws, [performJob] does not
    throw: it returns its promise, rejected with the error thrown. *)
Theorem performJob_rejects_on_throw
    (this_addJob : value -> value -> value -> invocation Handle)
    (type data sensitiveData : value) (err : error) (s : state) :
  this_addJob type data sensitiveData = Threw err ->
  performJob this_addJob type data sensitiveData s
  = ({| deferred := PRejected err; synced := None |},
     {| self := self s; world := world s;
        trace := trace s ++ [EDeferredReject err] |}).
Proof. intros Hcall. unfold performJob. now rewrite Hcall. Qed.

Lemma notify_all_unsynced (changes : list value) (w : job_watch) (s : state) :
  synced w = None -> notify_all changes w s = (w, s).
Proof.
  intros Hw. induction changes as [|d rest IH]; simpl; [reflexivity|].
  unfold notify. now rewrite Hw.
Qed.

Lemma notify_all_not_null (changes : list value) (record : Handle)
    (w : job_watch) (s : state) :
  synced w = Some record ->
  Forall (fun recordData => recordData <> VNull) changes ->
  notify_all changes w s
  = (w, {| self := self s; world := world s;
           trace := trace s ++ map ECallback changes |}).
Proof.
  intros Hw Hall. revert s.
  induction Hall as [|d rest Hd Hrest IH]; intros s; simpl.
  - rewrite app_nil_r. now destruct s.
  - unfold notify. rewrite Hw. unfold emit, on_change. simpl.
    destruct d; try contradiction; simpl; rewrite IH; simpl;
      now rewrite <- app_assoc.
Qed.

Lemma notify_all_app (c1 c2 : list value) (w : job_watch) (s : state) :
  notify_all (c1 ++ c2) w s
  = notify_all c2 (fst (notify_all c1 w s)) (snd (notify_all c1 w s)).
Proof.
  revert w s. induction c1 as [|d rest IH]; intros w s; simpl; [reflexivity|].
  destruct (notify d w s) as [w' s']. apply IH.
Qed.

(** C8.  Once [addJob] has resolved with a record, the promise of
    [performJob] stays pending while the data observed is not [null]; at
    the first [null] the callback unsubscribes and resolves the promise,
    once, and the changes that follow reach no callback.  A promise that
    is fulfilled stays so, whatever the callback is called with. *)
Theorem performJob_resolves_once
    (this_addJob : value -> value -> value -> invocation Handle)
    (type data sensitiveData : value) (promise : M World Handle Handle)
    (record : Handle) (s s1 : state) (before after : list value) :
  this_addJob type data sensitiveData = Returned promise ->
  promise s = (Resolved record, s1) ->
  Forall (fun recordData => recordData <> VNull) before ->
  let started := performJob this_addJob type data sensitiveData s in
  deferred (fst (notify_all before (fst started) (snd started))) = PPending
  /\ notify_all (before ++ VNull :: after) (fst started) (snd started)
     = ({| deferred := PFulfilled; synced := None |},
        {| self := self s1; world := world s1;
           trace := trace s1 ++ [ESync record] ++ map ECallback before
                    ++ [ECallback VNull; EUnsync record; EDeferredResolve] |})
  /\ (forall (recordData : value) (w : job_watch) (s' : state),
         deferred w = PFulfilled ->
         deferred (fst (on_change record recordData w s')) = PFulfilled).
Proof.
  intros Hcall Hrun Hbefore. cbv zeta.
  unfold performJob. rewrite Hcall, Hrun. unfold emit. cbn [fst snd].
  split; [|split].
  - now rewrite (notify_all_not_null before record).
  - rewrite notify_all_app, (notify_all_not_null before record) by easy.
    cbn [fst snd notify_all]. unfold notify. cbn [synced].
    unfold emit, on_change. cbn [is_null]. unfold emit.
    cbn [self world trace deferred resolve].
    rewrite notify_all_unsynced by reflexivity.
    rewrite <- !app_assoc. reflexivity.
  - intros recordData w s' Hw. unfold on_change, emit.
    destruct (is_null recordData); cbn [fst deferred]; rewrite Hw; reflexivity.
Qed.

(** *** The worker wrapper *)

Lemma lookup_assign_other (k k' : string) (x : value) (o : props) :
  k' <> k -> lookup k' (assign k x o) = lookup k' o.
Proof.
  intros Hne. induction o as [|[k0 y] r IH]; simpl.
  - destruct (String.eqb_spec k' k); [contradiction | reflexivity].
  - destruct (String.eqb_spec k k0) as [->|Hk]; simpl.
    + destruct (String.eqb_spec k' k0); [contradiction | reflexivity].
    + destruct (String.eqb_spec k' k0); [reflexivity | exact IH].
Qed.

Lemma lookup_remove_other (k k' : string) (o : props) :
  k' <> k -> lookup k' (remove k o) = lookup k' o.
Proof.
  intros Hne. induction o as [|[k0 y] r IH]; simpl; [reflexivity|].
  destruct (String.eqb_spec k k0) as [->|Hk]; simpl.
  - destruct (String.eqb_spec k' k0); [contradiction | reflexivity].
  - destruct (String.eqb_spec k' k0); [reflexivity | exact IH].
Qed.

(** The decryption step changes [data] and the two encrypted fields
    only: the type of the job is the one dispatched. *)
Lemma decrypt_step_keeps_type (logService : option log_service)
    (keypair : value) (job job1 : props) (s s1 : state) :
  decrypt_step logService keypair job s = (Resolved job1, s1) ->
  field job1 "type" = field job "type".
Proof.
  assert (Hdirty : forall d, field (after_failed_merge job d) "type"
                             = field job "type").
  { intros d. unfold after_failed_merge, field.
    destruct (lookup "data" job); [|reflexivity].
    now rewrite lookup_assign_other by discriminate. }
  unfold decrypt_step, logService_error, bind, ret, throw, emit, call.
  repeat break_match; intros H; inversion H; subst;
    try reflexivity; try apply Hdirty.
  unfold field.
  rewrite !lookup_remove_other, lookup_assign_other by discriminate.
  reflexivity.
Qed.

(** The callback [complete], one collaborator call at a time. *)
Lemma on_complete_spec (dataService : option data_service)
    (jobStartTime : Z) (job : props) (s : state) :
  on_complete dataService jobStartTime job s =
  let (jobCompleteTime, w3) := getTime (world s) in
  let (happenedAt, w4) := getTime w3 in
  let trackingEvent :=
    VObj [("_type", VStr "TrackingEvent");
          ("eventName",
           VStr (to_string (field job "type") ++ "-job-completed")%string);
          ("happenedAt", VNum happenedAt);
          ("eventData",
           VObj [("jobCompletionTime", VNum (jobCompleteTime - jobStartTime))])] in
  match dataService with
  | None => (Rejected TypeError, {| self := self s; world := w4; trace := trace s |})
  | Some create =>
      let (r, w5) := create trackingEvent w4 in
      match r with
      | Resolved _ =>
          (Resolved tt,
           {| self := self s; world := w5;
              trace := trace s ++ [ECreate trackingEvent; EComplete] |})
      | Rejected e =>
          (Rejected e,
           {| self := self s; world := w5;
              trace := trace s ++ [ECreate trackingEvent] |})
      | Pending =>
          (Pending,
           {| self := self s; world := w5;
              trace := trace s ++ [ECreate trackingEvent] |})
      end
  end.
Proof.
  unfold on_complete, dataService_create, bind, now, emit, call, throw.
  destruct (getTime (world s)) as [t1 w3]. cbn [self world trace].
  destruct (getTime w3) as [t2 w4]. cbn [self world trace].
  destruct dataService as [create|]; [|reflexivity].
  cbn [self world trace].
  destruct (create _ w4) as [[[]|e|] w5]; cbn [self world trace];
    try reflexivity.
  now rewrite <- app_assoc.
Qed.

(** C9 (amended).  For a job whose dispatch is logged and whose processor
    calls [complete], the wrapper reads the clock on entry ([t0]) and when
    [complete] is called ([t1]), builds an event named after the type of
    the job followed by ["-job-completed"] whose [jobCompletionTime] is
    [t1 - t0], and hands it to [dataService.create]; when that call
    returns, and only then, it calls the [complete] of the provider.  When
    [create] throws, or no data service was given to [createWorker], the
    error is thrown inside [complete], back to the processor, and the
    provider is not told. *)
Theorem worker_reports_completion (processJob : processor) (keypair : value)
    (logService : option log_service) (dataService : option data_service)
    (job job1 job2 : props) (s sL s1 : state) (t0 t1 t2 : Z)
    (w0 w3 w4 : World) (pass : World -> World) (next : outcome unit -> script) :
  let trackingEvent :=
    VObj [("_type", VStr "TrackingEvent");
          ("eventName",
           VStr (to_string (field job2 "type") ++ "-job-completed")%string);
          ("happenedAt", VNum t2);
          ("eventData", VObj [("jobCompletionTime", VNum (t1 - t0))])] in
  let rest (r : outcome unit) (w : World) (evs : list event) :=
    play (on_complete dataService t0) (next r)
      {| self := self s1; world := w;
         trace := trace s1 ++ EProcessJob job1 :: evs |} in
  getTime (world s) = (t0, w0) ->
  logService_log logService
    ("Processing " ++ to_string (field job "type") ++ " job")%string
    (field job "data")
    {| self := self s; world := w0; trace := trace s |}
  = (Resolved tt, sL) ->
  decrypt_step logService keypair job sL = (Resolved job1, s1) ->
  processJob job1 (world s1) = Calls job2 pass next ->
  getTime (pass (world s1)) = (t1, w3) ->
  getTime w3 = (t2, w4) ->
  field job1 "type" = field job "type"
  /\ (forall create w5,
         dataService = Some create ->
         create trackingEvent w4 = (Resolved tt, w5) ->
         innerProcessJob processJob keypair logService dataService job s
         = rest (Resolved tt) w5 [ECreate trackingEvent; EComplete])
  /\ (forall create e w5,
         dataService = Some create ->
         create trackingEvent w4 = (Rejected e, w5) ->
         innerProcessJob processJob keypair logService dataService job s
         = rest (Rejected e) w5 [ECreate trackingEvent])
  /\ (dataService = None ->
      innerProcessJob processJob keypair logService dataService job s
      = rest (Rejected TypeError) w4 []).
Proof.
  cbv zeta. intros Hstart Hlog Hdecrypt Hprocess Hdone Hdate.
  split; [exact (decrypt_step_keeps_type _ _ _ _ _ _ Hdecrypt)|].
  assert (Hrun : innerProcessJob processJob keypair logService dataService job s
                 = play (on_complete dataService t0) (Calls job2 pass next)
                     {| self := self s1; world := world s1;
                        trace := trace s1 ++ [EProcessJob job1] |}).
  { unfold innerProcessJob.
    unfold bind at 1. unfold now at 1. rewrite Hstart.
    unfold bind at 1. rewrite Hlog.
    unfold bind at 1. rewrite Hdecrypt.
    unfold bind at 1. unfold emit at 1. cbn [self world trace].
    now rewrite Hprocess. }
  rewrite Hrun. cbn [play self world trace].
  rewrite on_complete_spec. cbn [self world trace]. rewrite Hdone, Hdate.
  repeat split.
  - intros create w5 -> Hcreate. rewrite Hcreate.
    now rewrite <- !app_assoc.
  - intros create e w5 -> Hcreate. rewrite Hcreate.
    now rewrite <- !app_assoc.
  - intros ->. reflexivity.
Qed.

End Facts.

(** *** The theorems at work in the world of [Scenario] *)

Section Runs.

Import Scenario.

(** The key record holds a key [encrypt] refuses: the job is stored
    without the encrypted fields and [addJob] resolves. *)
Lemma encryption_failure_tolerated_witness :
  await (addJob (VStr "mail") mail card)
    (fresh (Some (VObj [("value", VStr "not a key")])))
  = (Resolved 0,
     {| self := {| queueType := VUndefined; _publicKey := VStr "not a key";
                   _provider := false |};
        world := {| clock := 1000;
                    key_record := Some (VObj [("value", VStr "not a key")]);
                    created := 1 |};
        trace := [EFetchRecord "Public Key" "BACKGROUND_PUBLIC_KEY";
                  EEncrypt (VObj [("card", VStr "4111")]) (VStr "not a key")
                    (Rejected (Failure (VStr "bad key")));
                  EConsoleLog (Failure (VStr "bad key"));
                  ECreateRecord "_queue/task";
                  EUpdate 0 (VObj [("type", VStr "mail"); ("data", mail)])] |}).
Proof.
  edestruct (encryption_failure_tolerated (C := lab_collaborators)
               (VStr "mail") mail card
               (fresh (Some (VObj [("value", VStr "not a key")]))))
    as [_ Hstored]; [reflexivity | reflexivity | reflexivity |].
  rewrite (Hstored 0 _ 0 _ eq_refl eq_refl). reflexivity.
Defined.

(** Three submissions in a row, two of them with sensitive data: the
    first one fetches the key, the two that follow do not. *)
Lemma addJob_fetches_until_key_cached_witness :
  let s1 := snd (await (addJob (VStr "a") mail card)
                   (fresh (Some (VObj [("value", VStr "PEM")])))) in
  truthy (_publicKey (self s1)) = true
  /\ fetch_count
       (trace (addJobs [(VStr "b", mail, card); (VStr "c", mail, VUndefined)] s1))
     = fetch_count (trace s1).
Proof.
  cbv zeta.
  assert (Hkey : truthy (_publicKey (self (snd (await (addJob (VStr "a") mail card)
                   (fresh (Some (VObj [("value", VStr "PEM")]))))))) = true)
    by (vm_compute; reflexivity).
  split; [exact Hkey|].
  exact (proj1 (proj2 (proj2 (addJob_fetches_until_key_cached
                                (C := lab_collaborators)
                                [(VStr "b", mail, card);
                                 (VStr "c", mail, VUndefined)]
                                (VStr "a") mail card
                                (fresh (Some (VObj [("value", VStr "PEM")]))))))
           Hkey).
Defined.

(** The key record holds an empty string: the fetch of the first call
    succeeds and the second call fetches again. *)
Lemma key_fetched_again_when_falsy :
  let s0 := fresh (Some (VObj [("value", VStr "")])) in
  fst (fetchPublicKey s0) = Resolved tt
  /\ fetch_count (trace (addJobs [(VStr "a", mail, card)] s0)) = 1
  /\ fetch_count
       (trace (addJobs [(VStr "a", mail, card); (VStr "b", mail, card)] s0))
     = 2.
Proof. cbv zeta. repeat split; vm_compute; reflexivity. Qed.

(** An [addJob] that throws when called. *)
Lemma performJob_rejects_on_throw_witness :
  deferred
    (fst (performJob (fun _ _ _ => Threw (Error "Maximum call stack size exceeded"))
            (VStr "mail") mail card (fresh None)))
  = PRejected (Error "Maximum call stack size exceeded").
Proof.
  rewrite (performJob_rejects_on_throw
             (fun _ _ _ => Threw (Error "Maximum call stack size exceeded"))
             (VStr "mail") mail card
             (Error "Maximum call stack size exceeded") (fresh None) eq_refl).
  reflexivity.
Defined.

(** The record is seen with data, then consumed, then reported twice
    more. *)
Lemma performJob_resolves_once_witness :
  let started := performJob addJob (VStr "mail") mail VUndefined (fresh None) in
  notify_all ([VObj [("type", VStr "mail")]] ++ VNull :: [VNull; VObj []])
    (fst started) (snd started)
  = ({| deferred := PFulfilled; synced := None |},
     {| self := self (fresh None);
        world := {| clock := 1000; key_record := None; created := 1 |};
        trace := [ECreateRecord "_queue/task";
                  EUpdate 0 (VObj [("type", VStr "mail"); ("data", mail)]);
                  ESync 0;
                  ECallback (VObj [("type", VStr "mail")]);
                  ECallback VNull; EUnsync 0; EDeferredResolve] |}).
Proof.
  destruct (performJob_resolves_once (addJob (C := lab_collaborators))
              (VStr "mail") mail VUndefined
              (addJob_chain (C := lab_collaborators) (VStr "mail") (removeUndefinedFields mail)
                 (removeUndefinedFields VUndefined))
              0 (fresh None)
              {| self := self (fresh None);
                 world := {| clock := 1000; key_record := None; created := 1 |};
                 trace := [ECreateRecord "_queue/task";
                           EUpdate 0 (VObj [("type", VStr "mail"); ("data", mail)])] |}
              [VObj [("type", VStr "mail")]] [VNull; VObj []]
              eq_refl eq_refl
              ltac:(repeat constructor; discriminate))
    as [_ [Hrun _]].
  cbv zeta. rewrite Hrun. reflexivity.
Defined.

(** An encrypted job, processed in 40 ms. *)
Lemma worker_reports_completion_witness :
  innerProcessJob slow_processor (VStr "PEM") (Some lab_log) (Some lab_data)
    [("type", VStr "mail"); ("data", mail);
     ("encryptedData", VStr "ciphertext"); ("encryptedKey", VStr "wrapped key")]
    (fresh None)
  = (Resolved tt,
     {| self := self (fresh None);
        world := {| clock := 1043; key_record := None; created := 0 |};
        trace :=
          [ELog "Processing mail job" mail;
           EDecrypt (VObj [("encryptedData", VStr "ciphertext");
                           ("encryptedKey", VStr "wrapped key")])
             (VStr "PEM") (Resolved (VObj [("secret", VStr "s3cret")]));
           EProcessJob [("type", VStr "mail");
                        ("data", VObj [("to", VStr "a@b.c");
                                       ("secret", VStr "s3cret")])];
           ECreate (VObj [("_type", VStr "TrackingEvent");
                          ("eventName", VStr "mail-job-completed");
                          ("happenedAt", VNum 1042);
                          ("eventData", VObj [("jobCompletionTime", VNum 41)])]);
           EComplete] |}).
Proof.
  exact (proj1 (proj2
    (worker_reports_completion (C := lab_collaborators)
       slow_processor (VStr "PEM") (Some lab_log) (Some lab_data)
       [("type", VStr "mail"); ("data", mail);
        ("encryptedData", VStr "ciphertext");
        ("encryptedKey", VStr "wrapped key")]
       [("type", VStr "mail");
        ("data", VObj [("to", VStr "a@b.c"); ("secret", VStr "s3cret")])]
       [("type", VStr "mail");
        ("data", VObj [("to", VStr "a@b.c"); ("secret", VStr "s3cret")])]
       (fresh None)
       {| self := self (fresh None);
          world := {| clock := 1001; key_record := None; created := 0 |};
          trace := [ELog "Processing mail job" mail] |}
       {| self := self (fresh None);
          world := {| clock := 1001; key_record := None; created := 0 |};
          trace :=
            [ELog "Processing mail job" mail;
             EDecrypt (VObj [("encryptedData", VStr "ciphertext");
                             ("encryptedKey", VStr "wrapped key")])
               (VStr "PEM") (Resolved (VObj [("secret", VStr "s3cret")]))] |}
       1000%Z 1041%Z 1042%Z
       {| clock := 1001; key_record := None; created := 0 |}
       {| clock := 1042; key_record := None; created := 0 |}
       {| clock := 1043; key_record := None; created := 0 |}
       (tick 40) (fun _ => Quiet)
       eq_refl eq_refl eq_refl eq_refl eq_refl eq_refl))
    lab_data {| clock := 1043; key_record := None; created := 0 |}
    eq_refl eq_refl).
Defined.

(** The same job with no data service given to [createWorker]: the
    processor calls [complete], no event reaches a data service and the
    [complete] of the provider is not called. *)
Lemma complete_lost_without_dataService :
  innerProcessJob (C := lab_collaborators) slow_processor (VStr "PEM")
    (Some lab_log) None
    [("type", VStr "mail"); ("data", mail)]
    (fresh None)
  = (Resolved tt,
     {| self := self (fresh None);
        world := {| clock := 1043; key_record := None; created := 0 |};
        trace := [ELog "Processing mail job" mail;
                  EProcessJob [("type", VStr "mail"); ("data", mail)]] |})
  /\ slow_processor [("type", VStr "mail"); ("data", mail)]
       {| clock := 1001; key_record := None; created := 0 |}
     = Calls [("type", VStr "mail"); ("data", mail)] (tick 40) (fun _ => Quiet).
Proof. split; reflexivity. Qed.

(** The key record does not exist: the chain of [addJob] is rejected and
    the promise of [performJob] is left pending. *)
Lemma performJob_pending_on_rejection_witness :
  performJob (addJob (C := lab_collaborators)) (VStr "mail") mail card (fresh None)
  = ({| deferred := PPending; synced := None |},
     {| self := self (fresh None); world := world (fresh None);
        trace := [EFetchRecord "Public Key" "BACKGROUND_PUBLIC_KEY"] |}).
Proof.
  exact (performJob_pending_on_rejection (addJob (C := lab_collaborators))
           (VStr "mail") mail card
           (addJob_chain (C := lab_collaborators) (VStr "mail")
              (removeUndefinedFields mail) (removeUndefinedFields card))
           (fresh None)
           {| self := self (fresh None); world := world (fresh None);
              trace := [EFetchRecord "Public Key" "BACKGROUND_PUBLIC_KEY"] |}
           (Failure (VStr "no such record")) eq_refl eq_refl).
Defined.

End Runs.

End ServiceFacts.

(* ===================================================================== *)
(** * Further properties of the sanitizer *)
(* ===================================================================== *)

Module SanitizerLaws.

Import SanitizerFacts.

(** Among the payloads none of whose objects has a property of its own
    named [hasOwnProperty], the values the sanitizer leaves as they are
    are exactly those without [undefined] inside. *)
Theorem removeUndefinedFields_fixpoint_iff (v : value) :
  plain v = true ->
  (removeUndefinedFields v = v <-> clean v = true).
Proof.
  intros _. rewrite removeUndefinedFields_sanitized. split.
  - intros H. rewrite <- H. apply sanitized_clean.
  - apply sanitized_fixpoint.
Qed.

Lemma removeUndefinedFields_fixpoint_iff_witness :
  removeUndefinedFields (VObj [("to", VStr "a@b.c")]) = VObj [("to", VStr "a@b.c")]
  <-> clean (VObj [("to", VStr "a@b.c")]) = true.
Proof.
  exact (removeUndefinedFields_fixpoint_iff (VObj [("to", VStr "a@b.c")]) eq_refl).
Defined.

(** The sanitizer never changes what kind of value a payload is, nor its
    truth value: the test [if (sensitiveData)] of [addJob] gives the same
    answer before and after lines 32-33. *)
Theorem removeUndefinedFields_keeps_kind (v : value) :
  typeof (removeUndefinedFields v) = typeof v
  /\ truthy (removeUndefinedFields v) = truthy v
  /\ (removeUndefinedFields v = VUndefined <-> v = VUndefined)
  /\ (removeUndefinedFields v = VNull <-> v = VNull).
Proof.
  rewrite removeUndefinedFields_sanitized.
  destruct v; simpl; repeat split; intros H; try reflexivity;
    try discriminate H; try exact H.
Qed.

End SanitizerLaws.

(* ===================================================================== *)
(** * Further properties of the service *)
(* ===================================================================== *)

Module ServiceLaws.

Import SanitizerFacts ServiceFacts.

Section Laws.

Context {World Handle : Type} {C : Collaborators World Handle}.

Local Abbreviation state := (state World Handle).
Local Abbreviation event := (event Handle).

Ltac case_split :=
  match goal with
  | |- context [match ?x with _ => _ end] =>
      lazymatch x with
      | context [match _ with _ => _ end] => fail
      | _ => destruct x eqn:?
      end
  end.

Ltac run_chain :=
  repeat first
    [ rewrite await_addJob
    | rewrite addJob_chain_spec
    | rewrite key_phase_spec
    | rewrite fetchPublicKey_spec
    | rewrite encrypt_phase_spec
    | rewrite store_phase_spec
    | progress cbn [self world trace fst snd queueType _publicKey _provider]
    | progress cbv zeta
    | case_split ].

Ltac in_cases H :=
  cbn [In] in H;
  repeat match type of H with
         | _ \/ _ => destruct H as [H|H]
         end;
  try contradiction; try discriminate H.

(** *** [fetchPublicKey] *)

(** [fetchPublicKey] does not look at the cache: every call asks the
    storage service once, a key being cached or not.  When the fetch
    fails, or never answers, the cached key is the one there was; the
    queue type and the provider are never touched. *)
Theorem fetchPublicKey_always_fetches (s : state) :
  let r := fetchPublicKey s in
  fetch_count (trace (snd r)) = S (fetch_count (trace s))
  /\ queueType (self (snd r)) = queueType (self s)
  /\ _provider (self (snd r)) = _provider (self s)
  /\ (fst r <> Resolved tt -> self (snd r) = self s).
Proof.
  cbv zeta. rewrite fetchPublicKey_spec. cbv zeta.
  repeat case_split; cbn [fst snd self trace queueType _provider];
    rewrite fetch_count_app; unfold fetch_count; cbn [filter is_fetch length];
    (split; [lia|]); repeat split; try reflexivity;
    intros H; try reflexivity; now contradiction H.
Qed.

(** *** [addJob] *)

(** When the key has to be fetched and the fetch fails, the submission
    stops there: [addJob] is rejected with the error of the fetch, and
    nothing is encrypted, created or written. *)
Theorem addJob_aborts_when_key_fetch_fails (type data sensitiveData : value)
    (s s1 : state) (e : error) :
  truthy (_publicKey (self s)) = false ->
  truthy sensitiveData = true ->
  fetchPublicKey s = (Rejected e, s1) ->
  await (addJob type data sensitiveData) s = (Rejected e, s1)
  /\ trace s1 = trace s ++ [EFetchRecord "Public Key" "BACKGROUND_PUBLIC_KEY"]
  /\ self s1 = self s.
Proof.
  intros Hkey Hsd Hfetch.
  rewrite await_addJob, addJob_chain_spec, key_phase_spec, Hkey.
  rewrite removeUndefinedFields_truthy, Hsd. cbn [negb andb].
  rewrite Hfetch. split; [reflexivity|].
  rewrite fetchPublicKey_spec in Hfetch. cbv zeta in Hfetch.
  destruct (storage_fetchRecord _ _ (world s)) as [[rec|e'|] w].
  - destruct (get_prop (record_getData rec w) "value");
      inversion Hfetch; subst; split; reflexivity.
  - inversion Hfetch; subst; split; reflexivity.
  - discriminate Hfetch.
Qed.

(** The first submission with sensitive data encrypts with the key it
    has just fetched: the [value] of the key record is cached and is the
    key given to [encrypt], right after the fetch. *)
Theorem addJob_encrypts_with_fetched_key (type data sensitiveData : value)
    (s : state) (publicKeyRecord : Handle) (w : World) (key : value) :
  let sensitiveData' := removeUndefinedFields sensitiveData in
  truthy (_publicKey (self s)) = false ->
  truthy sensitiveData = true ->
  storage_fetchRecord "Public Key" "BACKGROUND_PUBLIC_KEY" (world s)
  = (Resolved publicKeyRecord, w) ->
  get_prop (record_getData publicKeyRecord w) "value" = Some key ->
  _publicKey (self (snd (await (addJob type data sensitiveData) s))) = key
  /\ exists rest,
       trace (snd (await (addJob type data sensitiveData) s))
       = trace s
         ++ EFetchRecord "Public Key" "BACKGROUND_PUBLIC_KEY"
            :: EEncrypt sensitiveData' key (fst (encrypt sensitiveData' key w))
            :: rest.
Proof.
  cbv zeta. intros Hkey Hsd Hfetch Hvalue.
  rewrite await_addJob, addJob_chain_spec, key_phase_spec, Hkey.
  rewrite removeUndefinedFields_truthy, Hsd. cbn [negb andb].
  rewrite fetchPublicKey_spec. cbv zeta. rewrite Hfetch, Hvalue.
  rewrite encrypt_phase_spec, removeUndefinedFields_truthy, Hsd.
  cbv zeta. cbn [self world trace _publicKey].
  destruct (encrypt (removeUndefinedFields sensitiveData) key w)
    as [[payload|err|] w2]; cbn [fst].
  - rewrite store_phase_spec. cbv zeta. cbn [self world trace queueType].
    repeat case_split; cbn [snd self trace _publicKey];
      (split; [reflexivity|]); rewrite <- ?app_assoc; cbn [app]; eauto.
  - rewrite store_phase_spec. cbv zeta. cbn [self world trace queueType].
    repeat case_split; cbn [snd self trace _publicKey];
      (split; [reflexivity|]); rewrite <- ?app_assoc; cbn [app]; eauto.
  - cbn [snd self trace _publicKey]. split; [reflexivity|].
    rewrite <- ?app_assoc. cbn [app]. eauto.
Qed.

(** Sensitive data that is falsy (an empty string, [0], [false], [null],
    or none at all) is dropped without a word: the key is not fetched,
    [encrypt] is not called, and the record written is [{type, data}]. *)
Theorem addJob_drops_falsy_sensitive_data (type data sensitiveData : value)
    (s : state) :
  truthy sensitiveData = false ->
  let r := await (addJob type data sensitiveData) s in
  self (snd r) = self s
  /\ exists evs,
       trace (snd r) = trace s ++ evs
       /\ (forall ev, In ev evs ->
           ev = ECreateRecord (route (queueType (self s)))
           \/ exists record,
                ev = EUpdate record
                      (VObj [("type", type);
                             ("data", removeUndefinedFields data)])).
Proof.
  intros Hsd. cbv zeta.
  rewrite await_addJob, addJob_chain_spec, key_phase_spec.
  rewrite removeUndefinedFields_truthy, Hsd, andb_false_r.
  rewrite encrypt_phase_spec, removeUndefinedFields_truthy, Hsd.
  rewrite store_phase_spec. cbv zeta. unfold job_record. cbn [truthy].
  repeat case_split; cbn [snd self trace]; (split; [reflexivity|]);
    (eexists; split; [reflexivity|]);
    intros ev Hin; in_cases Hin; subst; eauto.
Qed.

(** A failure of the storage service is the failure of [addJob], as it
    is, and nothing is tried again: a record that cannot be created is
    not updated, and an update that is refused is not repeated. *)
Theorem addJob_propagates_storage_failure (type data sensitiveData : value)
    (s s1 s2 : state) (encryptedPayload : value) (e : error) :
  let data' := removeUndefinedFields data in
  let sensitiveData' := removeUndefinedFields sensitiveData in
  let path := route (queueType (self s2)) in
  let jobData := job_record type data' encryptedPayload in
  key_phase sensitiveData' s = (Resolved tt, s1) ->
  encrypt_phase sensitiveData' s1 = (Resolved encryptedPayload, s2) ->
  (forall w,
      storage_createRecord path (world s2) = (Rejected e, w) ->
      await (addJob type data sensitiveData) s
      = (Rejected e,
         {| self := self s2; world := w;
            trace := trace s2 ++ [ECreateRecord path] |}))
  /\ (forall record w w',
         storage_createRecord path (world s2) = (Resolved record, w) ->
         record_update record jobData w = (Rejected e, w') ->
         await (addJob type data sensitiveData) s
         = (Rejected e,
            {| self := self s2; world := w';
               trace := trace s2 ++ [ECreateRecord path; EUpdate record jobData] |})).
Proof.
  cbv zeta. intros Hkey Henc.
  rewrite await_addJob, addJob_chain_spec, Hkey, Henc, store_phase_spec.
  cbv zeta. split.
  - intros w Hcreate. now rewrite Hcreate.
  - intros record w w' Hcreate Hupdate. now rewrite Hcreate, Hupdate.
Qed.

(** Within one call the collaborators are called in the order of the
    chain, each at most once: the key fetch, then the encryption (and the
    logging of its failure), then the creation of the record, then its
    update. *)
Theorem addJob_calls_in_order (type data sensitiveData : value) (s : state) :
  exists evs,
    trace (snd (await (addJob type data sensitiveData) s)) = trace s ++ evs
    /\ StronglySorted lt (map phase_rank evs).
Proof.
  run_chain; rewrite <- ?app_assoc; cbn [app];
    (eexists; split; [try reflexivity; symmetry; apply app_nil_r|]);
    cbn [map phase_rank]; repeat constructor.
Qed.


(** [addJob] changes nothing of the instance but the cached key. *)
Lemma addJob_chain_keeps_instance (type data sensitiveData : value) (s : state) :
  queueType (self (snd (addJob_chain type data sensitiveData s)))
  = queueType (self s)
  /\ _provider (self (snd (addJob_chain type data sensitiveData s)))
     = _provider (self s).
Proof. run_chain; split; reflexivity. Qed.

Lemma addJobs_keep_instance (calls : list (value * value * value)) (s : state) :
  queueType (self (addJobs calls s)) = queueType (self s)
  /\ _provider (self (addJobs calls s)) = _provider (self s).
Proof.
  revert s. induction calls as [|[[type data] sd] rest IH]; intros s;
    cbn [addJobs]; [split; reflexivity|].
  rewrite await_addJob.
  destruct (IH (snd (addJob_chain type (removeUndefinedFields data)
                       (removeUndefinedFields sd) s))) as [-> ->].
  apply addJob_chain_keeps_instance.
Qed.


(** *** [createWorker] and [shutdown] *)

(** A service that has no worker cannot be shut down: as it comes from
    the constructor, after any number of submissions, and after a
    [createWorker] that was refused for want of a provider or of a
    processor, [shutdown] throws and the provider is not called. *)
Theorem shutdown_without_worker (type : value) (svc : service)
    (w : World) (calls : list (value * value * value))
    (processJob : option processor) (keypair : value)
    (logService : option log_service) (dataService : option data_service) :
  JobQueueService true type = inr svc ->
  let s := addJobs calls {| self := svc; world := w; trace := [] |} in
  shutdown s = (Rejected (Error "Job queue provider required"), s)
  /\ createWorker false processJob keypair logService dataService s
     = (Rejected (Error "Job queue provider required"), s)
  /\ createWorker true None keypair logService dataService s
     = (Rejected (Error "Process job callback required"), s).
Proof.
  intros Hnew. cbv zeta.
  rewrite constructor_checks_type in Hnew. cbn [negb] in Hnew.
  destruct (is_queue_type type); [|discriminate Hnew].
  injection Hnew as <-.
  split; [|split; reflexivity].
  unfold shutdown, bind, get_self, throw.
  destruct (addJobs_keep_instance calls
              {| self := {| queueType := type; _publicKey := VUndefined;
                            _provider := false |};
                 world := w; trace := [] |}) as [_ Hp].
  cbn [self _provider] in Hp. rewrite Hp. reflexivity.
Qed.

(** Once [createWorker] has registered the wrapper, [shutdown] is the
    [shutdown] of the provider: its answer, and nothing else done. *)
Theorem shutdown_after_createWorker (processJob : processor)
    (keypair : value) (logService : option log_service)
    (dataService : option data_service) (s : state) :
  let s1 := snd (createWorker true (Some processJob) keypair logService
                   dataService s) in
  trace s1 = trace s ++ [EProviderCreateWorker]
  /\ queueType (self s1) = queueType (self s)
  /\ _publicKey (self s1) = _publicKey (self s)
  /\ shutdown s1
     = (fst (provider_shutdown (world s)),
        {| self := self s1; world := snd (provider_shutdown (world s));
           trace := trace s ++ [EProviderCreateWorker; EProviderShutdown] |}).
Proof.
  cbv zeta. unfold createWorker, shutdown.
  unfold bind, ret, throw, emit, call, get_self, set_provider.
  cbn [negb snd self world trace _provider queueType _publicKey].
  repeat split.
  destruct (provider_shutdown (world s)) as [r w'].
  cbn [fst snd]. now rewrite <- app_assoc.
Qed.


(** *** The worker wrapper *)

Lemma lookup_assign_same (k : string) (x : value) (o : props) :
  lookup k (assign k x o) = Some x.
Proof.
  induction o as [|[k0 y] r IH]; simpl.
  - now rewrite String.eqb_refl.
  - destruct (String.eqb_spec k k0) as [->|Hk]; simpl.
    + now rewrite String.eqb_refl.
    + destruct (String.eqb_spec k k0); [contradiction | exact IH].
Qed.

Lemma lookup_none_not_in (k : string) (o : props) :
  lookup k o = None <-> ~ In k (map fst o).
Proof.
  induction o as [|[k0 y] r IH]; simpl; [tauto|].
  destruct (String.eqb_spec k k0) as [->|Hk].
  - split; [discriminate | intros H; exfalso; apply H; now left].
  - rewrite IH. split; [intros H [Heq|Hin]; [congruence | tauto] | tauto].
Qed.

Lemma keys_assign (k : string) (x : value) (o : props) :
  NoDup (map fst o) ->
  NoDup (map fst (assign k x o))
  /\ forall k', In k' (map fst (assign k x o)) <-> k' = k \/ In k' (map fst o).
Proof.
  induction o as [|[k0 y] r IH]; simpl; intros Hnd.
  - split; [repeat constructor; intros [] | intros k'; intuition congruence].
  - inversion Hnd as [|? ? Hnot Hnd']; subst.
    destruct (String.eqb_spec k k0) as [->|Hk]; simpl.
    + split; [exact Hnd | intros k'; intuition congruence].
    + destruct (IH Hnd') as [IH1 IH2]. split.
      * constructor; [|exact IH1]. rewrite IH2. intros [Heq|Hin]; congruence.
      * intros k'. rewrite IH2. intuition congruence.
Qed.

Lemma keys_remove (k : string) (o : props) :
  NoDup (map fst o) ->
  NoDup (map fst (remove k o))
  /\ forall k', In k' (map fst (remove k o)) <-> k' <> k /\ In k' (map fst o).
Proof.
  induction o as [|[k0 y] r IH]; simpl; intros Hnd.
  - split; [constructor | intros k'; tauto].
  - inversion Hnd as [|? ? Hnot Hnd']; subst.
    destruct (String.eqb_spec k k0) as [->|Hk]; simpl.
    + split; [exact Hnd'|]. intros k'. split.
      * intros Hin. split; [intros ->; contradiction | now right].
      * intros [Hne [Heq|Hin]]; [congruence | exact Hin].
    + destruct (IH Hnd') as [IH1 IH2]. split.
      * constructor; [|exact IH1]. rewrite IH2. tauto.
      * intros k'. rewrite IH2. split.
        -- intros [Heq|[Hne Hin]]; [subst; split; [congruence | now left]|tauto].
        -- intros [Hne [Heq|Hin]]; [now left | right; tauto].
Qed.

(** A job whose [encryptedData] is set is decrypted before the processor
    sees it: the payload given to [decrypt] is made of the two encrypted
    fields, [data] becomes what [Object.assign] has merged, the two
    encrypted fields are gone, and every other field is as dispatched. *)
Theorem worker_decrypts_job (logService : option log_service)
    (keypair : value) (job : props) (s : state)
    (decryptedData merged : value) (w : World) :
  let encryptedPayload :=
    VObj [("encryptedData", field job "encryptedData");
          ("encryptedKey", field job "encryptedKey")] in
  NoDup (map fst job) ->
  truthy (field job "encryptedData") = true ->
  decrypt encryptedPayload keypair (world s) = (Resolved decryptedData, w) ->
  Object_assign (field job "data") decryptedData = Resolved merged ->
  exists job1,
    decrypt_step logService keypair job s
    = (Resolved job1,
       {| self := self s; world := w;
          trace := trace s
                   ++ [EDecrypt encryptedPayload keypair (Resolved decryptedData)] |})
    /\ lookup "data" job1 = Some merged
    /\ lookup "encryptedData" job1 = None
    /\ lookup "encryptedKey" job1 = None
    /\ (forall k, k <> "data" -> k <> "encryptedData" -> k <> "encryptedKey" ->
        lookup k job1 = lookup k job).
Proof.
  cbv zeta. intros Hnd Henc Hdec Hmerge.
  eexists. split.
  - unfold decrypt_step. rewrite Henc, Hdec, Hmerge. reflexivity.
  - destruct (keys_assign "data" merged job Hnd) as [Hnd1 Hk1].
    destruct (keys_remove "encryptedData" _ Hnd1) as [Hnd2 Hk2].
    destruct (keys_remove "encryptedKey" _ Hnd2) as [_ Hk3].
    repeat split.
    + rewrite !lookup_remove_other by discriminate. apply lookup_assign_same.
    + rewrite lookup_remove_other by discriminate.
      apply lookup_none_not_in. rewrite Hk2. tauto.
    + apply lookup_none_not_in. rewrite Hk3. tauto.
    + intros k H1 H2 H3.
      rewrite !lookup_remove_other, lookup_assign_other by assumption.
      reflexivity.
Qed.

(** When the decryption fails and the error is logged, the processor
    gets the job with its two encrypted fields and every field other than
    [data] as dispatched.  When it is [decrypt] that threw, [data] is
    untouched too; when it is the merge, [data] is the object in the state
    the merge has left it in. *)
Theorem worker_keeps_job_when_decryption_fails
    (logService : option log_service) (service : log_service)
    (keypair : value) (job : props) (s : state) (err : error) :
  let encryptedPayload :=
    VObj [("encryptedData", field job "encryptedData");
          ("encryptedKey", field job "encryptedKey")] in
  truthy (field job "encryptedData") = true ->
  logService = Some service ->
  (forall w w',
      decrypt encryptedPayload keypair (world s) = (Rejected err, w) ->
      log_error service err w = (Resolved tt, w') ->
      decrypt_step logService keypair job s
      = (Resolved job,
         {| self := self s; world := w';
            trace := trace s
                     ++ [EDecrypt encryptedPayload keypair (Rejected err);
                         ELogError err] |}))
  /\ (forall decryptedData w w',
         decrypt encryptedPayload keypair (world s) = (Resolved decryptedData, w) ->
         Object_assign (field job "data") decryptedData = Rejected err ->
         log_error service err w = (Resolved tt, w') ->
         decrypt_step logService keypair job s
         = (Resolved (after_failed_merge job decryptedData),
            {| self := self s; world := w';
               trace := trace s
                        ++ [EDecrypt encryptedPayload keypair (Resolved decryptedData);
                            ELogError err] |})
         /\ forall k, k <> "data" ->
              lookup k (after_failed_merge job decryptedData) = lookup k job).
Proof.
  cbv zeta. intros Henc ->. unfold decrypt_step. rewrite Henc.
  unfold logService_error, bind, ret, emit, call. split.
  - intros w w' Hdec Hlog. rewrite Hdec. cbn [self world trace].
    rewrite Hlog. now rewrite <- app_assoc.
  - intros d w w' Hdec Hmerge Hlog. rewrite Hdec, Hmerge.
    cbn [self world trace]. rewrite Hlog. split.
    + now rewrite <- app_assoc.
    + intros k Hk. unfold after_failed_merge.
      destruct (lookup "data" job); [|reflexivity].
      now apply lookup_assign_other.
Qed.

Lemma no_report_in_prefix (evs : list event) :
  Forall prefix_call evs -> filter is_report evs = [].
Proof.
  induction 1 as [|e r He Hr IH]; [reflexivity|].
  destruct e; try contradiction; exact IH.
Qed.

(** A processor that returns or throws without calling [complete] gets
    nothing reported: no tracking event is created and the [complete] of
    the provider is not called; what the processor throws is let
    through. *)
Theorem worker_silent_without_complete (processJob : processor)
    (keypair : value) (logService : option log_service)
    (dataService : option data_service) (job : props) (s : state) :
  (forall job1 w, processJob job1 w = Quiet
                  \/ exists e, processJob job1 w = Throws e) ->
  let r := innerProcessJob processJob keypair logService dataService job s in
  (exists evs, trace (snd r) = trace s ++ evs /\ filter is_report evs = [])
  /\ (forall job1 s1 e,
         logService_log logService
           ("Processing " ++ to_string (field job "type") ++ " job")%string
           (field job "data")
           {| self := self s; world := snd (getTime (world s));
              trace := trace s |}
         = (Resolved tt, s1) ->
         fst (decrypt_step logService keypair job s1) = Resolved job1 ->
         processJob job1 (world (snd (decrypt_step logService keypair job s1)))
         = Throws e ->
         fst r = Rejected e).
Proof.
  intros Hquiet. cbv zeta. split.
  - assert (Happ : appends prefix_call
                     (innerProcessJob processJob keypair logService
                        dataService job)).
    { unfold innerProcessJob.
      apply appends_bind; [apply appends_now | intros t0].
      apply appends_bind; [apply logService_log_appends | intros _].
      apply appends_bind; [apply decrypt_step_appends | intros job1].
      apply appends_bind; [now apply appends_emit | intros _].
      intros s'. destruct (Hquiet job1 (world s')) as [Hq | [e Hq]];
        assert (Hplay : forall A (m : M World Handle A),
                   appends prefix_call m ->
                   self (snd (m s')) = self s'
                   /\ exists evs, trace (snd (m s')) = trace s' ++ evs
                                  /\ Forall prefix_call evs)
          by (intros A m Hm; exact (Hm s'));
        rewrite Hq; cbn [play].
      - apply Hplay, appends_ret.
      - apply Hplay, appends_throw. }
    destruct (Happ s) as [_ [evs [Htr Hall]]].
    exists evs. split; [exact Htr | now apply no_report_in_prefix].
  - intros job1 s1 e Hlog Hdec Hrun. unfold innerProcessJob.
    unfold bind at 1. unfold now at 1.
    destruct (getTime (world s)) as [t0 w0]. cbn [snd] in Hlog.
    unfold bind at 1. rewrite Hlog.
    unfold bind at 1.
    destruct (decrypt_step logService keypair job s1) as [r1 s2].
    cbn [fst snd] in Hdec, Hrun. subst r1.
    unfold bind at 1. unfold emit at 1. cbn [self world trace].
    rewrite Hrun. reflexivity.
Qed.

(** *** Submission and processing together *)

(** What is submitted as sensitive data reaches the processor merged
    into [data]: the record [addJob] writes carries the two fields of the
    payload [encrypt] returned; dispatched as a job, these two fields are
    what [decrypt] is given, and when [decrypt] gives the sanitized
    sensitive data back, the processor receives [{type, data}] with [data]
    the merge of the sanitized data and sensitive data, and no encrypted
    field. *)
Theorem submitted_secret_reaches_processor
    (type data sensitiveData payload keypair merged : value)
    (s s1 s' : state) (record r : Handle) (w2 w3 w4 w' : World) :
  let data' := removeUndefinedFields data in
  let sensitiveData' := removeUndefinedFields sensitiveData in
  let encryptedPayload :=
    VObj [("encryptedData", prop payload "encryptedData");
          ("encryptedKey", prop payload "encryptedKey")] in
  let job :=
    [("type", type); ("data", data');
     ("encryptedData", prop payload "encryptedData");
     ("encryptedKey", prop payload "encryptedKey")] in
  truthy sensitiveData' = true ->
  key_phase sensitiveData' s = (Resolved tt, s1) ->
  encrypt sensitiveData' (_publicKey (self s1)) (world s1) = (Resolved payload, w2) ->
  truthy payload = true ->
  truthy (prop payload "encryptedData") = true ->
  storage_createRecord (route (queueType (self s1))) w2 = (Resolved record, w3) ->
  record_update record (VObj job) w3 = (Resolved r, w4) ->
  decrypt encryptedPayload keypair (world s') = (Resolved sensitiveData', w') ->
  Object_assign data' sensitiveData' = Resolved merged ->
  await (addJob type data sensitiveData) s
  = (Resolved r,
     {| self := self s1; world := w4;
        trace := trace s1
                 ++ [EEncrypt sensitiveData' (_publicKey (self s1)) (Resolved payload);
                     ECreateRecord (route (queueType (self s1)));
                     EUpdate record (VObj job)] |})
  /\ (forall logService,
         decrypt_step logService keypair job s'
         = (Resolved [("type", type); ("data", merged)],
        {| self := self s'; world := w';
            trace := trace s'
                     ++ [EDecrypt encryptedPayload keypair (Resolved sensitiveData')] |})).
Proof.
  cbv zeta.
  intros Hsd Hkey Henc Hpayload Hed Hcreate Hupdate Hdec Hmerge. split.
  - rewrite await_addJob, addJob_chain_spec, Hkey, encrypt_phase_spec, Hsd.
    cbv zeta. rewrite Henc, store_phase_spec. cbv zeta.
    cbn [self world trace]. rewrite Hcreate.
    unfold job_record. rewrite Hpayload, Hupdate.
    now rewrite <- app_assoc.
  - intros logService. unfold decrypt_step.
    unfold field at 1. cbn [lookup String.eqb Ascii.eqb Bool.eqb].
    rewrite Hed. cbv zeta.
    unfold field. cbn [lookup String.eqb Ascii.eqb Bool.eqb].
    rewrite Hdec, Hmerge. reflexivity.
Qed.

(** *** [performJob] on the [addJob] of the service *)

Lemma notify_all_watching (changes : list value) (record : Handle)
    (w : job_watch) (s : state) :
  synced w = Some record ->
  deferred w = PPending ->
  deferred (fst (notify_all changes w s))
  = if existsb is_null changes then PFulfilled else PPending.
Proof.
  revert w s. induction changes as [|d rest IH]; intros w s Hw Hd;
    cbn [notify_all existsb]; [exact Hd|].
  unfold notify. rewrite Hw. unfold emit, on_change.
  destruct (is_null d); cbn [orb].
  - unfold emit. rewrite notify_all_unsynced by reflexivity.
    cbn [fst deferred]. now rewrite Hd.
  - now apply IH.
Qed.

(** On payloads none of whose objects has a property of its own named
    [hasOwnProperty] (so that the sanitizer of lines 32-33 does not
    throw), the promise of [performJob] is never rejected: it is fulfilled
    when the record was written and the storage service has reported it
    [null] at least once, and pending in every other case, a failed
    submission included. *)
Theorem performJob_fulfilled_iff_consumed (type data sensitiveData : value)
    (changes : list value) (s : state) :
  plain data = true ->
  plain sensitiveData = true ->
  let started := performJob addJob type data sensitiveData s in
  deferred (fst (notify_all changes (fst started) (snd started)))
  = match fst (await (addJob type data sensitiveData) s) with
    | Resolved _ => if existsb is_null changes then PFulfilled else PPending
    | _ => PPending
    end.
Proof.
  intros _ _. cbv zeta. unfold performJob. cbn [addJob await].
  destruct (addJob_chain type (removeUndefinedFields data)
              (removeUndefinedFields sensitiveData) s) as [[record|e|] s1];
    unfold emit; cbn [fst snd].
  - now apply (notify_all_watching changes record).
  - now rewrite notify_all_unsynced.
  - now rewrite notify_all_unsynced.
Qed.

End Laws.

(** *** The laws at work *)

Section MoreRuns.

Import Scenario Outage.

(** No key record: the submission of sensitive data stops at the fetch. *)
Lemma addJob_aborts_when_key_fetch_fails_witness :
  await (addJob (C := lab_collaborators) (VStr "mail") mail card) (fresh None)
  = (Rejected (Failure (VStr "no such record")),
     {| self := self (fresh None); world := world (fresh None);
        trace := [EFetchRecord "Public Key" "BACKGROUND_PUBLIC_KEY"] |}).
Proof.
  exact (proj1 (addJob_aborts_when_key_fetch_fails (C := lab_collaborators)
                  (VStr "mail") mail card (fresh None)
                  {| self := self (fresh None); world := world (fresh None);
                     trace := [EFetchRecord "Public Key" "BACKGROUND_PUBLIC_KEY"] |}
                  (Failure (VStr "no such record")) eq_refl eq_refl eq_refl)).
Defined.

(** The key record holds ["PEM"]: it is what [encrypt] gets. *)
Lemma addJob_encrypts_with_fetched_key_witness :
  _publicKey
    (self (snd (await (addJob (C := lab_collaborators) (VStr "mail") mail card)
                  (fresh (Some (VObj [("value", VStr "PEM")]))))))
  = VStr "PEM".
Proof.
  exact (proj1 (addJob_encrypts_with_fetched_key (C := lab_collaborators)
                  (VStr "mail") mail card
                  (fresh (Some (VObj [("value", VStr "PEM")])))
                  0 (world (fresh (Some (VObj [("value", VStr "PEM")]))))
                  (VStr "PEM") eq_refl eq_refl eq_refl eq_refl)).
Defined.

(** An empty string given as sensitive data. *)
Lemma addJob_drops_falsy_sensitive_data_witness :
  self (snd (await (addJob (C := lab_collaborators) (VStr "mail") mail (VStr ""))
               (fresh None)))
  = self (fresh None).
Proof.
  exact (proj1 (addJob_drops_falsy_sensitive_data (C := lab_collaborators)
                  (VStr "mail") mail (VStr "") (fresh None) eq_refl)).
Defined.

(** The storage service refuses to create the record. *)
Lemma addJob_propagates_storage_failure_witness :
  await (addJob (C := down_collaborators) (VStr "mail") mail VUndefined)
    (stranded CreateDown)
  = (Rejected (Failure (VStr "storage unavailable")),
     {| self := self (stranded CreateDown); world := CreateDown;
        trace := [ECreateRecord "_sessionQueue/task"] |}).
Proof.
  exact (proj1 (addJob_propagates_storage_failure (C := down_collaborators)
                  (VStr "mail") mail VUndefined
                  (stranded CreateDown) (stranded CreateDown) (stranded CreateDown)
                  VUndefined (Failure (VStr "storage unavailable"))
                  eq_refl eq_refl)
           CreateDown eq_refl).
Defined.

(** A service on the fast queue that has submitted one job. *)
Lemma shutdown_without_worker_witness :
  let s := addJobs (C := lab_collaborators) [(VStr "mail", mail, VUndefined)]
             {| self := {| queueType := VStr "fast"; _publicKey := VUndefined;
                           _provider := false |};
                world := world (fresh None); trace := [] |} in
  shutdown s = (Rejected (Error "Job queue provider required"), s).
Proof.
  exact (proj1 (shutdown_without_worker (C := lab_collaborators)
                  (VStr "fast")
                  {| queueType := VStr "fast"; _publicKey := VUndefined;
                     _provider := false |}
                  (world (fresh None)) [(VStr "mail", mail, VUndefined)]
                  None VNull None None eq_refl)).
Defined.

(** An encrypted job and the matching key pair. *)
Lemma worker_decrypts_job_witness :
  exists job1,
    decrypt_step (C := lab_collaborators) None (VStr "PEM")
      [("type", VStr "mail"); ("data", mail);
       ("encryptedData", VStr "ciphertext"); ("encryptedKey", VStr "wrapped key")]
      (fresh None)
    = (Resolved job1,
       {| self := self (fresh None); world := world (fresh None);
          trace := [EDecrypt (VObj [("encryptedData", VStr "ciphertext");
                                    ("encryptedKey", VStr "wrapped key")])
                      (VStr "PEM") (Resolved (VObj [("secret", VStr "s3cret")]))] |})
    /\ lookup "data" job1
       = Some (VObj [("to", VStr "a@b.c"); ("secret", VStr "s3cret")])
    /\ lookup "encryptedData" job1 = None
    /\ lookup "encryptedKey" job1 = None
    /\ (forall k, k <> "data" -> k <> "encryptedData" -> k <> "encryptedKey" ->
        lookup k job1
        = lookup k [("type", VStr "mail"); ("data", mail);
                    ("encryptedData", VStr "ciphertext");
                    ("encryptedKey", VStr "wrapped key")]).
Proof.
  exact (worker_decrypts_job (C := lab_collaborators) None (VStr "PEM")
           [("type", VStr "mail"); ("data", mail);
            ("encryptedData", VStr "ciphertext"); ("encryptedKey", VStr "wrapped key")]
           (fresh None) (VObj [("secret", VStr "s3cret")])
           (VObj [("to", VStr "a@b.c"); ("secret", VStr "s3cret")])
           (world (fresh None))
           ltac:(repeat constructor; simpl; intuition discriminate)
           eq_refl eq_refl eq_refl).
Defined.

(** The same job and a key pair [decrypt] refuses. *)
Lemma worker_keeps_job_when_decryption_fails_witness :
  decrypt_step (C := lab_collaborators) (Some lab_log)
    (VStr "another key pair")
    [("type", VStr "mail"); ("data", mail);
     ("encryptedData", VStr "ciphertext"); ("encryptedKey", VStr "wrapped key")]
    (fresh None)
  = (Resolved [("type", VStr "mail"); ("data", mail);
               ("encryptedData", VStr "ciphertext");
               ("encryptedKey", VStr "wrapped key")],
     {| self := self (fresh None); world := world (fresh None);
        trace := [EDecrypt (VObj [("encryptedData", VStr "ciphertext");
                                  ("encryptedKey", VStr "wrapped key")])
                    (VStr "another key pair")
                    (Rejected (Failure (VStr "bad key pair")));
                  ELogError (Failure (VStr "bad key pair"))] |}).
Proof.
  exact (proj1 (worker_keeps_job_when_decryption_fails (C := lab_collaborators)
                  (Some lab_log) lab_log (VStr "another key pair")
                  [("type", VStr "mail"); ("data", mail);
                   ("encryptedData", VStr "ciphertext");
                   ("encryptedKey", VStr "wrapped key")]
                  (fresh None) (Failure (VStr "bad key pair")) eq_refl eq_refl)
           (world (fresh None)) (world (fresh None)) eq_refl eq_refl).
Defined.

(** The secret [{secret: "s3cret"}] submitted with a mail job, then the
    job dispatched to a worker that holds the key pair. *)
Lemma submitted_secret_reaches_processor_witness :
  decrypt_step (C := lab_collaborators) (Some lab_log) (VStr "PEM")
    [("type", VStr "mail"); ("data", mail);
     ("encryptedData", VStr "ciphertext"); ("encryptedKey", VStr "wrapped key")]
    (fresh None)
  = (Resolved [("type", VStr "mail");
               ("data", VObj [("to", VStr "a@b.c"); ("secret", VStr "s3cret")])],
     {| self := self (fresh None); world := world (fresh None);
        trace := [EDecrypt (VObj [("encryptedData", VStr "ciphertext");
                                  ("encryptedKey", VStr "wrapped key")])
                    (VStr "PEM") (Resolved (VObj [("secret", VStr "s3cret")]))] |}).
Proof.
  exact (proj2 (submitted_secret_reaches_processor (C := lab_collaborators)
                  (VStr "mail") mail (VObj [("secret", VStr "s3cret")])
                  (VObj [("encryptedData", VStr "ciphertext");
                         ("encryptedKey", VStr "wrapped key")])
                  (VStr "PEM")
                  (VObj [("to", VStr "a@b.c"); ("secret", VStr "s3cret")])
                  (fresh (Some (VObj [("value", VStr "PEM")])))
                  {| self := {| queueType := VUndefined; _publicKey := VStr "PEM";
                                _provider := false |};
                     world := world (fresh (Some (VObj [("value", VStr "PEM")])));
                     trace := [EFetchRecord "Public Key" "BACKGROUND_PUBLIC_KEY"] |}
                  (fresh None) 0 0
                  (world (fresh (Some (VObj [("value", VStr "PEM")]))))
                  {| clock := 1000;
                     key_record := Some (VObj [("value", VStr "PEM")]);
                     created := 1 |}
                  {| clock := 1000;
                     key_record := Some (VObj [("value", VStr "PEM")]);
                     created := 1 |}
                  (world (fresh None))
                  eq_refl eq_refl eq_refl eq_refl eq_refl eq_refl eq_refl
                  eq_refl eq_refl)
           (Some lab_log)).
Defined.

(** A processor that throws at once. *)
Lemma worker_silent_without_complete_witness :
  exists evs,
    trace (snd (innerProcessJob (C := lab_collaborators)
                  (fun job w => Throws (Error "cannot process"))
                  (VStr "PEM") (Some lab_log) (Some lab_data)
                  [("type", VStr "mail"); ("data", mail)] (fresh None)))
    = trace (fresh None) ++ evs
    /\ filter is_report evs = [].
Proof.
  exact (proj1 (worker_silent_without_complete (C := lab_collaborators)
                  (fun job w => Throws (Error "cannot process"))
                  (VStr "PEM") (Some lab_log) (Some lab_data)
                  [("type", VStr "mail"); ("data", mail)] (fresh None)
                  (fun job1 w => or_intror (ex_intro _ (Error "cannot process")
                                              eq_refl)))).
Defined.

(** A submission whose key fetch fails, the record then reported
    [null]: the promise stays pending. *)
Lemma performJob_fulfilled_iff_consumed_witness :
  let started := performJob (addJob (C := lab_collaborators))
                   (VStr "mail") mail card (fresh None) in
  deferred (fst (notify_all [VNull] (fst started) (snd started)))
  = match fst (await (addJob (C := lab_collaborators) (VStr "mail") mail card)
                 (fresh None)) with
    | Resolved _ => if existsb is_null [VNull] then PFulfilled else PPending
    | _ => PPending
    end.
Proof.
  exact (performJob_fulfilled_iff_consumed (C := lab_collaborators)
           (VStr "mail") mail card [VNull] (fresh None) eq_refl eq_refl).
Defined.

End MoreRuns.

End ServiceLaws.
